(** * Amp reverse proxy, module lifecycle and endpoint compatibility

    A shallow embedding of the Go sources
      - [internal/api/modules/amp/proxy.go]   (both listings of the file),
      - [internal/api/modules/amp/amp.go] and [routes.go],
      - [sdk/api/handlers/openai/endpoint_compat.go],
    with the parts of the Go standard library they call ([strings],
    [net/textproto], [io], [bytes], [compress/gzip], [net/url]) modelled
    next to them. *)

From Stdlib Require Import ZArith NArith List String Ascii Bool Lia.
From Stdlib.Strings Require Import Byte.
From Stdlib Require Import DecimalString.
From stdpp Require Import base option list strings gmap.

Local Open Scope string_scope.
Local Open Scope Z_scope.
Local Open Scope list_scope.

(* ===================================================================== *)
(** ** Go's [strings] package, on byte strings *)
(* ===================================================================== *)

Module strings.

(** [strings.HasPrefix(s, prefix)]. *)
Definition HasPrefix (s pre : string) : bool := String.prefix pre s.

(** [strings.Contains(s, substr)]: [substr] starts at some offset of [s]. *)
Fixpoint Contains (s substr : string) : bool :=
  HasPrefix s substr ||
  match s with
  | EmptyString => false
  | String _ t => Contains t substr
  end.

Definition lower_ascii (c : ascii) : ascii :=
  let n := nat_of_ascii c in
  if (65 <=? n)%nat && (n <=? 90)%nat then ascii_of_nat (n + 32) else c.

(** [strings.ToLower(s)].  ASCII letters are lowered byte by byte.  Two
    code points outside ASCII lower to an ASCII letter, U+212A (bytes
    E2 84 AA) to [k] and U+0130 (bytes C4 B0) to [i]; they are rewritten
    as Go does.  The bytes of every other rune outside ASCII are left as
    they are: whatever Go maps them to stays outside ASCII, so the
    positions at which an ASCII needle occurs are the same. *)
Fixpoint ToLower (s : string) : string :=
  match s with
  | EmptyString => EmptyString
  | String "226"%char (String "132"%char (String "170"%char t)) =>
      String "k"%char (ToLower t)
  | String "196"%char (String "176"%char t) =>
      String "i"%char (ToLower t)
  | String c t => String (lower_ascii c) (ToLower t)
  end.

(** The white-space runes of [unicode.IsSpace], as UTF-8 byte
    sequences: the six ASCII ones, U+0085, U+00A0, U+1680,
    U+2000..U+200A, U+2028, U+2029, U+202F, U+205F and U+3000. *)
Definition spaces : list string :=
  map (fun c => String c EmptyString)
      ["009"; "010"; "011"; "012"; "013"; " "]%char
  ++ map string_of_list_ascii
      [ ["194"; "133"]; ["194"; "160"]; ["225"; "154"; "128"];
        ["226"; "128"; "128"]; ["226"; "128"; "129"]; ["226"; "128"; "130"];
        ["226"; "128"; "131"]; ["226"; "128"; "132"]; ["226"; "128"; "133"];
        ["226"; "128"; "134"]; ["226"; "128"; "135"]; ["226"; "128"; "136"];
        ["226"; "128"; "137"]; ["226"; "128"; "138"]; ["226"; "128"; "168"];
        ["226"; "128"; "169"]; ["226"; "128"; "175"]; ["226"; "129"; "159"];
        ["227"; "128"; "128"] ]%char.

Fixpoint drop_str (n : nat) (s : string) : string :=
  match n, s with
  | O, _ => s
  | S n', String _ t => drop_str n' t
  | S _, EmptyString => EmptyString
  end.

(** Length of the white-space rune [s] starts with, if it starts with one. *)
Definition leading_space (s : string) : option nat :=
  match filter (fun w => bool_decide (HasPrefix s w = true)) spaces with
  | w :: _ => Some (String.length w)
  | [] => None
  end.

(** [strings.TrimLeftFunc(s, unicode.IsSpace)]. *)
Fixpoint TrimLeft (fuel : nat) (s : string) : string :=
  match fuel with
  | O => s
  | S fuel' =>
      match leading_space s with
      | Some (S k) => TrimLeft fuel' (drop_str (S k) s)
      | _ => s
      end
  end.

Definition rev_str (s : string) : string :=
  string_of_list_ascii (rev (list_ascii_of_string s)).

Definition trailing_space (r : string) : option nat :=
  match filter (fun w => bool_decide (HasPrefix r (rev_str w) = true)) spaces with
  | w :: _ => Some (String.length w)
  | [] => None
  end.

(** [strings.TrimRightFunc(s, unicode.IsSpace)], on the reversed string. *)
Fixpoint TrimRight_rev (fuel : nat) (r : string) : string :=
  match fuel with
  | O => r
  | S fuel' =>
      match trailing_space r with
      | Some (S k) => TrimRight_rev fuel' (drop_str (S k) r)
      | _ => r
      end
  end.

(** [strings.TrimSpace(s)]: all leading and trailing white space removed.
    Every step removes at least one byte, so the length of [s] is fuel
    enough. *)
Definition TrimSpace (s : string) : string :=
  let l := TrimLeft (String.length s) s in
  rev_str (TrimRight_rev (String.length l) (rev_str l)).

End strings.

(* ===================================================================== *)
(** ** [net/http]: headers, as the map from canonical key to values *)
(* ===================================================================== *)

Module http.

(** [http.Header] is [map[string][]string]. *)
Abbreviation Header := (gmap string (list string)).

(** [validHeaderFieldByte]: the token characters of RFC 7230. *)
Definition validHeaderFieldByte (c : ascii) : bool :=
  let n := nat_of_ascii c in
  ((48 <=? n) && (n <=? 57) || (65 <=? n) && (n <=? 90)
   || (97 <=? n) && (n <=? 122))%nat
  || bool_decide (c ∈ ["!"; "#"; "$"; "%"; "&"; "'"; "*"; "+"; "-"; ".";
                       "^"; "_"; "`"; "|"; "~"]%char).

Definition upper_ascii (c : ascii) : ascii :=
  let n := nat_of_ascii c in
  if (97 <=? n)%nat && (n <=? 122)%nat then ascii_of_nat (n - 32) else c.

Fixpoint canon (upper : bool) (s : string) : string :=
  match s with
  | EmptyString => EmptyString
  | String c t =>
      String (if upper then upper_ascii c else strings.lower_ascii c)
             (canon (bool_decide (c = "-"%char)) t)
  end.

(** [textproto.CanonicalMIMEHeaderKey]: a key of token characters gets
    its first letter and every letter after a hyphen in upper case and
    the others in lower case; a key with any other byte is returned
    as it is. *)
Definition CanonicalMIMEHeaderKey (s : string) : string :=
  if forallb validHeaderFieldByte (list_ascii_of_string s)
  then canon true s else s.

(** [Header.Get]: the first value of the key, [""] when there is none. *)
Definition Get (h : Header) (key : string) : string :=
  match h !! CanonicalMIMEHeaderKey key with
  | Some (v :: _) => v
  | _ => ""
  end.

(** [Header.Set]: the key's values are replaced by the single [value]. *)
Definition Set_ (h : Header) (key value : string) : Header :=
  <[CanonicalMIMEHeaderKey key := [value]]> h.

(** [Header.Del]. *)
Definition Del (h : Header) (key : string) : Header :=
  delete (CanonicalMIMEHeaderKey key) h.

End http.

(* ===================================================================== *)
(** ** [io] and [bytes]: readers *)
(* ===================================================================== *)

Module io.

(** How a read ends: [EOF] is the regular end of the data. *)
Inductive error : Type :=
| EOF
| ErrUnexpectedEOF
| ErrOther (msg : string).

(** An [io.Reader] at some point of its life: the bytes it is still
    going to deliver, and what the read after the last of them returns. *)
Record Reader : Type := mkReader {
  pending : list byte;
  finish : error
}.

(** [bytes.NewReader(b)]; [io.NopCloser] adds a [Close] that does
    nothing and is the identity here. *)
Definition NewReader (b : list byte) : Reader := mkReader b EOF.

(** [io.MultiReader(bytes.NewReader(b), r)]: [b], then all of [r]. *)
Definition MultiReader (b : list byte) (r : Reader) : Reader :=
  mkReader (b ++ pending r) (finish r).

(** [io.ReadFull(r, buf)] with [len(buf) = size]: the bytes read, the
    error, and the reader afterwards.  A full buffer clears the error; a
    clean end after no byte is [EOF], after some bytes
    [ErrUnexpectedEOF]. *)
Definition ReadFull (r : Reader) (size : nat)
  : list byte * option error * Reader :=
  if decide (size ≤ length (pending r))%nat
  then (take size (pending r), None, mkReader (drop size (pending r)) (finish r))
  else (pending r,
        Some (match finish r, pending r with
              | EOF, [] => EOF
              | EOF, _ :: _ => ErrUnexpectedEOF
              | e, _ => e
              end),
        mkReader [] (finish r)).

(** [io.ReadAll(r)]: everything up to the end; the end itself is an
    error unless it is [EOF]. *)
Definition ReadAll (r : Reader) : list byte * option error * Reader :=
  (pending r,
   match finish r with EOF => None | e => Some e end,
   mkReader [] (finish r)).

(** [io.TeeReader(r, &buf)]: "a Reader that writes to w what it reads
    from r.  All reads from r performed through it are matched with
    corresponding writes to w."  [src] is [r] where it has got to, [sink]
    is the content of [buf]. *)
Record Tee : Type := mkTee {
  src : Reader;
  sink : list byte
}.

Definition TeeReader (r : Reader) (buf : list byte) : Tee := mkTee r buf.

(** [io.ReadFull] and [io.ReadAll] through a tee: the same read on the
    source, and the bytes it returned appended to the buffer. *)
Definition Tee_ReadFull (t : Tee) (size : nat) : list byte * option error * Tee :=
  let '(p, err, r) := ReadFull (src t) size in
  (p, err, mkTee r (sink t ++ p)).

Definition Tee_ReadAll (t : Tee) : list byte * option error * Tee :=
  let '(p, err, r) := ReadAll (src t) in
  (p, err, mkTee r (sink t ++ p)).

End io.

(* ===================================================================== *)
(** ** Go [error] values, as data *)
(* ===================================================================== *)

Module errors.

Inductive error : Type :=
| New (text : string)                       (* [errors.New(text)] *)
| Errorf (format : string) (arg : string)   (* [fmt.Errorf(format, arg)] *)
| Wrapf (format : string) (err : error)     (* [fmt.Errorf(format, err)], verb [%w] *)
| EscapeError (s : string)                  (* [url.EscapeError] *)
| InvalidHostError (s : string)             (* [url.InvalidHostError] *)
| URLError (op url : string) (err : error). (* [*url.Error] *)

End errors.

(* ===================================================================== *)
(** ** [strconv], [context], [compress/gzip], [net/url] *)
(* ===================================================================== *)

Module strconv.

(** [strconv.FormatInt(i, 10)]. *)
Definition FormatInt (i : Z) : string := NilZero.string_of_int (Z.to_int i).

End strconv.

Module context.

(** A request context: all that is observable here is whether the request
    has been cancelled. *)
Record Context : Type := mkContext { cancelled : bool }.

End context.

Module gzip.

(** What proxy.go uses of [compress/gzip]: [gzip.NewReader], which reads
    the header of the first member and fails on a bad one, and
    [io.ReadAll] on the reader it returns, which fails on a corrupt or
    truncated stream.  The library is a parameter of the proxy; the
    reference reader [gzip_ref] below is one instance. *)
Class Lib : Type := {
  Reader : Type;
  NewReader : list byte -> option Reader;
  ReadAll : Reader -> option (list byte)
}.

(** RFC 1952, 2.3.1: every member starts with the bytes 1F 8B, so a
    reader is only made from data that starts with them. *)
Definition checks_magic (G : Lib) : Prop :=
  forall d r, NewReader d = Some r -> exists t, d = x1f :: x8b :: t.

End gzip.

Module url.

(** The fields of [url.URL] that [url.Parse] fills. *)
Record URL : Type := mkURL {
  Scheme : string;
  Opaque : string;
  User : option (string * option string);
  Host : string;
  Path : string;
  RawQuery : string;
  Fragment : string
}.

(** [net/url] as a parameter: [Parse] returns the URL, or the error.  The reference parser [url_ref] below is one instance. *)
Class Lib : Type := { Parse : string -> URL + errors.error }.

(** [URL.IsAbs]: the URL has a scheme. *)
Definition IsAbs (u : URL) : bool := negb (String.eqb (Scheme u) "").

End url.

(* ===================================================================== *)
(** ** [net/http]: responses, requests, response writers *)
(* ===================================================================== *)

Module Response.

Record t : Type := mk {
  StatusCode : Z;
  Header : http.Header;
  Body : io.Reader;
  ContentLength : Z
}.

End Response.

Module Request.

Record t : Type := mk {
  Method : string;
  URL : url.URL;
  Host : string;
  Header : http.Header;
  Context : context.Context
}.

End Request.

Module ResponseWriter.

Record t : Type := mk {
  Header : http.Header;
  Status : Z;
  Written : string
}.

End ResponseWriter.

Module httputil.

(** [net/http/httputil] as a parameter: the director that
    [NewSingleHostReverseProxy(target)] installs. *)
Class Lib : Type := { singleHostDirector : url.URL -> Request.t -> Request.t }.

Definition singleJoiningSlash (a b : string) : string :=
  let aslash := strings.HasPrefix (strings.rev_str a) "/" in
  let bslash := strings.HasPrefix b "/" in
  if aslash && bslash then (a ++ strings.drop_str 1 b)%string
  else if negb aslash && negb bslash then (a ++ "/" ++ b)%string
  else (a ++ b)%string.

(** [rewriteRequestURL(req, target)], the reference instance: scheme and
    host of the target, the two paths joined, the two queries joined. *)
Definition rewriteRequestURL (target : url.URL) (req : Request.t) : Request.t :=
  let u := Request.URL req in
  let q := if String.eqb (url.RawQuery target) "" || String.eqb (url.RawQuery u) ""
           then (url.RawQuery target ++ url.RawQuery u)%string
           else (url.RawQuery target ++ "&" ++ url.RawQuery u)%string in
  Request.mk (Request.Method req)
             (url.mkURL (url.Scheme target) (url.Opaque u) (url.User u)
                        (url.Host target)
                        (singleJoiningSlash (url.Path target) (url.Path u))
                        q (url.Fragment u))
             (Request.Host req) (Request.Header req) (Request.Context req).

Definition httputil_ref : Lib := {| singleHostDirector := rewriteRequestURL |}.

End httputil.

(* ===================================================================== *)
(** ** Package [amp]: proxy.go, first listing (two-byte peek) *)
(* ===================================================================== *)

Module amp.

(** The [SecretSource] interface: [Get(ctx) (string, error)].  A source
    may keep a cache, so [Get] also returns the source afterwards. *)
Class SecretSource (S : Type) : Type := {
  Get : S -> context.Context -> (string * option errors.error) * S
}.

(** [httputil.ReverseProxy]: the three hooks createReverseProxy sets. *)
Record ReverseProxy (S : Type) : Type := mkProxy {
  Director : Request.t -> S -> Request.t * S;
  ModifyResponse : Response.t -> Response.t * option errors.error;
  ErrorHandler : ResponseWriter.t -> Request.t -> errors.error -> ResponseWriter.t
}.
Arguments mkProxy {S} _ _ _.
Arguments Director {S} _ _ _.
Arguments ModifyResponse {S} _ _.
Arguments ErrorHandler {S} _ _ _ _.

(** [isStreamingResponse] (lines 136-145): server-sent events only. *)
Definition isStreamingResponse (resp : Response.t) : bool :=
  let contentType := http.Get (Response.Header resp) "Content-Type" in
  if strings.Contains contentType "text/event-stream" then true else false.

(** Replaces the body and nothing else. *)
Definition with_Body (resp : Response.t) (b : io.Reader) : Response.t :=
  Response.mk (Response.StatusCode resp) (Response.Header resp) b
              (Response.ContentLength resp).

(** The [proxy.ModifyResponse] closure (lines 50-119).  It always returns
    a nil error. *)
Definition proxy_ModifyResponse `{G : gzip.Lib}
    (resp : Response.t) : Response.t * option errors.error :=
  if (Response.StatusCode resp <? 200) || (Response.StatusCode resp >=? 300)
  then (resp, None)
  else if negb (String.eqb (http.Get (Response.Header resp) "Content-Encoding") "")
  then (resp, None)
  else if isStreamingResponse resp
  then (resp, None)
  else
    let '(header, _, body1) := io.ReadFull (Response.Body resp) 2 in
    let n := length header in
    if (2 <=? n)%nat && Byte.eqb (nth 0 header x00) x1f
                     && Byte.eqb (nth 1 header x00) x8b
    then
      let '(rest, err, body2) := io.ReadAll body1 in
      match err with
      | Some _ => (with_Body resp (io.MultiReader header body2), None)
      | None =>
          let gzippedData := header ++ rest in
          match gzip.NewReader gzippedData with
          | None => (with_Body resp (io.NewReader gzippedData), None)
          | Some gzipReader =>
              match gzip.ReadAll gzipReader with
              | None => (with_Body resp (io.NewReader gzippedData), None)
              | Some decompressed =>
                  let len := Z.of_nat (length decompressed) in
                  let h := http.Del (Response.Header resp) "Content-Encoding" in
                  let h := http.Del h "Content-Length" in
                  let h := http.Set_ h "Content-Length" (strconv.FormatInt len) in
                  (Response.mk (Response.StatusCode resp) h
                               (io.NewReader decompressed) len, None)
              end
          end
      end
    else (with_Body resp (io.MultiReader header body1), None).

(** The [proxy.Director] closure (lines 30-46): the director of
    [httputil.NewSingleHostReverseProxy(parsed)] first, then the host,
    then the credential.  A source error is logged and nothing is set. *)
Definition proxy_Director {S : Type} `{SS : SecretSource S}
    (originalDirector : Request.t -> Request.t) (parsed : url.URL)
    (req : Request.t) (secretSource : S) : Request.t * S :=
  let req := originalDirector req in
  let req := Request.mk (Request.Method req) (Request.URL req) (url.Host parsed)
                        (Request.Header req) (Request.Context req) in
  let '((key, err), secretSource) := Get secretSource (Request.Context req) in
  match err with
  | None =>
      if negb (String.eqb key "")
      then
        let h := http.Set_ (Request.Header req) "X-Api-Key" key in
        let h := http.Set_ h "Authorization" ("Bearer " ++ key)%string in
        (Request.mk (Request.Method req) (Request.URL req) (Request.Host req)
                    h (Request.Context req), secretSource)
      else (req, secretSource)
  | Some _ => (req, secretSource)
  end.

(** The JSON text the error handler writes; [q] is the double quote. *)
Definition upstream_error_body : string :=
  let q := String (ascii_of_nat 34) EmptyString in
  String.concat q
    ["{"; "error"; ":"; "amp_upstream_proxy_error"; ","; "message"; ":";
     "Failed to reach Amp upstream"; "}"].

(** The [proxy.ErrorHandler] closure (lines 122-127). *)
Definition proxy_ErrorHandler (rw : ResponseWriter.t) (req : Request.t)
    (err : errors.error) : ResponseWriter.t :=
  ResponseWriter.mk
    (http.Set_ (ResponseWriter.Header rw) "Content-Type" "application/json")
    502
    (ResponseWriter.Written rw ++ upstream_error_body)%string.

(** [createReverseProxy] (lines 20-130).  The closures hold a pointer to
    the secret source; here the source is handed to the director at each
    call. *)
Definition createReverseProxy `{G : gzip.Lib} `{U : url.Lib} `{H : httputil.Lib}
    {S : Type} `{SS : SecretSource S}
    (upstreamURL : string) : option (ReverseProxy S) * option errors.error :=
  match url.Parse upstreamURL with
  | inr err => (None, Some (errors.Wrapf "invalid amp upstream url: %w" err))
  | inl parsed =>
      (Some (mkProxy (proxy_Director (httputil.singleHostDirector parsed) parsed)
                     proxy_ModifyResponse
                     proxy_ErrorHandler),
       None)
  end.

End amp.

(* ===================================================================== *)
(** ** Package [amp]: proxy.go, second listing (tee reader) *)
(* ===================================================================== *)

Module amp_tee.

(** [isStreamingResponse] (lines 284-298): server-sent events, or a
    chunked transfer encoding. *)
Definition isStreamingResponse (resp : Response.t) : bool :=
  let contentType := http.Get (Response.Header resp) "Content-Type" in
  if strings.Contains contentType "text/event-stream" then true
  else if strings.Contains
            (strings.ToLower (http.Get (Response.Header resp) "Transfer-Encoding"))
            "chunked"
  then true
  else false.

(** The [proxy.ModifyResponse] closure (lines 201-270).  [peeker] is the
    tee of the body into [buf]; [resp.Body] goes on reading where the
    tee's source has got to. *)
Definition proxy_ModifyResponse `{G : gzip.Lib}
    (resp : Response.t) : Response.t * option errors.error :=
  if (Response.StatusCode resp <? 200) || (Response.StatusCode resp >=? 300)
  then (resp, None)
  else if negb (String.eqb (http.Get (Response.Header resp) "Content-Encoding") "")
  then (resp, None)
  else if isStreamingResponse resp
  then (resp, None)
  else
    let peeker := io.TeeReader (Response.Body resp) [] in
    let '(header, err, peeker) := io.Tee_ReadFull peeker 2 in
    let n := length header in
    match err with
    | Some (io.ErrOther _) =>
        (amp.with_Body resp (io.MultiReader (io.sink peeker) (io.src peeker)), None)
    | _ =>
        if (2 <=? n)%nat && Byte.eqb (nth 0 header x00) x1f
                         && Byte.eqb (nth 1 header x00) x8b
        then
          let '(fullBody, err, peeker) := io.Tee_ReadAll peeker in
          match err with
          | Some _ =>
              (amp.with_Body resp
                 (io.MultiReader (io.sink peeker) (io.src peeker)), None)
          | None =>
              let gzippedData := io.sink peeker ++ fullBody in
              match gzip.NewReader gzippedData with
              | None => (amp.with_Body resp (io.NewReader gzippedData), None)
              | Some gzipReader =>
                  match gzip.ReadAll gzipReader with
                  | None => (amp.with_Body resp (io.NewReader gzippedData), None)
                  | Some decompressed =>
                      let len := Z.of_nat (length decompressed) in
                      (Response.mk (Response.StatusCode resp)
                                   (http.Del (Response.Header resp) "Content-Encoding")
                                   (io.NewReader decompressed) len, None)
                  end
              end
          end
        else
          (amp.with_Body resp (io.MultiReader (io.sink peeker) (io.src peeker)), None)
    end.

(** [createReverseProxy] (lines 171-281): director and error handler are
    those of the first listing, word for word. *)
Definition createReverseProxy `{G : gzip.Lib} `{U : url.Lib} `{H : httputil.Lib}
    {S : Type} `{SS : amp.SecretSource S}
    (upstreamURL : string) : option (amp.ReverseProxy S) * option errors.error :=
  match url.Parse upstreamURL with
  | inr err => (None, Some (errors.Wrapf "invalid amp upstream url: %w" err))
  | inl parsed =>
      (Some (amp.mkProxy (amp.proxy_Director (httputil.singleHostDirector parsed) parsed)
                         proxy_ModifyResponse
                         amp.proxy_ErrorHandler),
       None)
  end.

End amp_tee.

(* ===================================================================== *)
(** ** A reference gzip reader (RFC 1951, RFC 1952)

    An executable instance of [gzip.Lib], following the decisions of
    Go's [compress/flate] and [compress/gzip]: bits are taken from the
    input one byte at a time, so the member trailer starts at the byte
    after the last one the DEFLATE stream needed; a Huffman code must be
    complete (or be the single code of length one); after a member, an
    empty rest ends the data and anything else must be a further member. *)
(* ===================================================================== *)

Module flate.

(** The unread bits of the current byte, lowest first, and the bytes
    after it. *)
Record bits : Type := mkBits {
  cur : list bool;
  rest : list byte
}.

Definition byte_bits (b : byte) : list bool :=
  let '(b0, (b1, (b2, (b3, (b4, (b5, (b6, b7))))))) := Byte.to_bits b in
  [b0; b1; b2; b3; b4; b5; b6; b7].

Definition getbit (s : bits) : option (bool * bits) :=
  match cur s with
  | b :: c => Some (b, mkBits c (rest s))
  | [] =>
      match rest s with
      | [] => None
      | x :: r =>
          match byte_bits x with
          | b :: c => Some (b, mkBits c r)
          | [] => None
          end
      end
  end.

(** [n] bits as a number, first bit lowest. *)
Fixpoint getbits (n : nat) (s : bits) : option (N * bits) :=
  match n with
  | O => Some (0%N, s)
  | S n' =>
      '(b, s) ← getbit s;
      '(v, s) ← getbits n' s;
      Some (((if b : bool then 1 else 0) + 2 * v)%N, s)
  end.

(** A canonical Huffman code: how many codes there are of each length
    1..15, and the symbols in order of code. *)
Record huffman : Type := mkHuffman {
  counts : list N;
  symbols : list N
}.

Definition construct (lens : list nat) : huffman :=
  let indexed := imap (fun i l => (N.of_nat i, l)) lens in
  let of_len := fun l : nat =>
    map fst (filter (fun p : N * nat => p.2 = l) indexed) in
  mkHuffman (map (fun l => N.of_nat (length (of_len l))) (seq 1 15))
            (concat (map of_len (seq 1 15))).

(** The check of [huffmanDecoder.init]: no code at all, or a complete
    code, or one code of length one. *)
Definition complete (lens : list nat) : bool :=
  let max := foldr Nat.max O lens in
  let code := foldr (fun l acc => if decide (l = O) then acc
                                  else (2 ^ N.of_nat (max - l) + acc)%N) 0%N lens in
  if decide (max = O) then true
  else (code =? 2 ^ N.of_nat max)%N || ((code =? 1)%N && (max =? 1)%nat).

(** One symbol: bits are appended to the code, highest first, until the
    code falls among those of the current length. *)
Fixpoint decode (cnts : list N) (syms : list N) (code first index : N)
    (s : bits) : option (N * bits) :=
  match cnts with
  | [] => None
  | count :: cnts' =>
      '(b, s) ← getbit s;
      let code := (code + if b : bool then 1 else 0)%N in
      if (code <? first + count)%N
      then sym ← syms !! N.to_nat (index + (code - first)); Some (sym, s)
      else decode cnts' syms (2 * code)%N (2 * (first + count))%N
                  (index + count)%N s
  end.

Definition huffSym (h : huffman) (s : bits) : option (N * bits) :=
  decode (counts h) (symbols h) 0%N 0%N 0%N s.

Definition lbase : list N :=
  [3; 4; 5; 6; 7; 8; 9; 10; 11; 13; 15; 17; 19; 23; 27; 31; 35; 43; 51; 59;
   67; 83; 99; 115; 131; 163; 195; 227; 258]%N.
Definition lext : list nat :=
  [0; 0; 0; 0; 0; 0; 0; 0; 1; 1; 1; 1; 2; 2; 2; 2; 3; 3; 3; 3; 4; 4; 4; 4;
   5; 5; 5; 5; 0]%nat.
Definition dbase : list N :=
  [1; 2; 3; 4; 5; 7; 9; 13; 17; 25; 33; 49; 65; 97; 129; 193; 257; 385; 513;
   769; 1025; 1537; 2049; 3073; 4097; 6145; 8193; 12289; 16385; 24577]%N.
Definition dext : list nat :=
  [0; 0; 0; 0; 1; 1; 2; 2; 3; 3; 4; 4; 5; 5; 6; 6; 7; 7; 8; 8; 9; 9; 10; 10;
   11; 11; 12; 12; 13; 13]%nat.

Definition byte_of_N (n : N) : byte :=
  match Byte.of_N n with Some b => b | None => x00 end.

(** [len] bytes copied from [d] back; [out] is the output so far, last
    byte first. *)
Fixpoint copy (len : nat) (d : nat) (out : list byte) : list byte :=
  match len with
  | O => out
  | S len' =>
      match out !! (d - 1)%nat with
      | Some b => copy len' d (b :: out)
      | None => out
      end
  end.

(** The symbols of a compressed block, up to its end-of-block symbol. *)
Fixpoint huffmanBlock (fuel : nat) (lit dist : huffman) (out : list byte)
    (s : bits) : option (list byte * bits) :=
  match fuel with
  | O => None
  | S fuel' =>
      '(sym, s) ← huffSym lit s;
      if (sym <? 256)%N then huffmanBlock fuel' lit dist (byte_of_N sym :: out) s
      else if (sym =? 256)%N then Some (out, s)
      else if (286 <=? sym)%N then None
      else
        let i := N.to_nat (sym - 257) in
        lb ← lbase !! i;
        le ← lext !! i;
        '(ex, s) ← getbits le s;
        '(dsym, s) ← huffSym dist s;
        if (30 <=? dsym)%N then None
        else
          db ← dbase !! N.to_nat dsym;
          de ← dext !! N.to_nat dsym;
          '(dex, s) ← getbits de s;
          let d := N.to_nat (db + dex) in
          if decide (length out < d)%nat then None
          else huffmanBlock fuel' lit dist (copy (N.to_nat (lb + ex)) d out) s
  end.

Definition fixed_lit : huffman :=
  construct (replicate 144 8 ++ replicate 112 9 ++ replicate 24 7
             ++ replicate 8 8)%nat.
Definition fixed_dist : huffman := construct (replicate 32 5%nat).

(** A stored block: the rest of the current byte is dropped, then LEN,
    its complement, and LEN bytes. *)
Definition dataBlock (out : list byte) (s : bits) : option (list byte * bits) :=
  match rest s with
  | l0 :: l1 :: n0 :: n1 :: data =>
      let n := (Byte.to_N l0 + 256 * Byte.to_N l1)%N in
      let nn := (Byte.to_N n0 + 256 * Byte.to_N n1)%N in
      if negb (n + nn =? 65535)%N then None
      else if decide (length data < N.to_nat n)%nat then None
      else Some (rev (take (N.to_nat n) data) ++ out,
                 mkBits [] (drop (N.to_nat n) data))
  | _ => None
  end.

Definition codeOrder : list nat :=
  [16; 17; 18; 0; 8; 7; 9; 6; 10; 5; 11; 4; 12; 3; 13; 2; 14; 1; 15]%nat.

Fixpoint getmany (k : nat) (width : nat) (s : bits) : option (list nat * bits) :=
  match k with
  | O => Some ([], s)
  | S k' =>
      '(v, s) ← getbits width s;
      '(vs, s) ← getmany k' width s;
      Some (N.to_nat v :: vs, s)
  end.

(** The code lengths of a dynamic block, [acc] last one first. *)
Fixpoint readLengths (fuel : nat) (h1 : huffman) (n : nat) (acc : list nat)
    (s : bits) : option (list nat * bits) :=
  match fuel with
  | O => None
  | S fuel' =>
      if decide (n <= length acc)%nat then Some (rev acc, s)
      else
        '(x, s) ← huffSym h1 s;
        if (x <? 16)%N then readLengths fuel' h1 n (N.to_nat x :: acc) s
        else
          '(rep0, nb, b) ←
            (if (x =? 16)%N then
               match acc with [] => None | p :: _ => Some (3, 2, p)%nat end
             else if (x =? 17)%N then Some (3, 3, 0)%nat
             else if (x =? 18)%N then Some (11, 7, 0)%nat
             else None);
          '(e, s) ← getbits nb s;
          let rep := (rep0 + N.to_nat e)%nat in
          if decide (n < length acc + rep)%nat then None
          else readLengths fuel' h1 n (replicate rep b ++ acc) s
  end.

(** The header of a dynamic block: the two codes it declares. *)
Definition readHuffman (s : bits) : option (huffman * huffman * bits) :=
  '(hlit, s) ← getbits 5 s;
  '(hdist, s) ← getbits 5 s;
  '(hclen, s) ← getbits 4 s;
  let nlit := (N.to_nat hlit + 257)%nat in
  let ndist := (N.to_nat hdist + 1)%nat in
  let nclen := (N.to_nat hclen + 4)%nat in
  if decide (286 < nlit)%nat then None
  else if decide (30 < ndist)%nat then None
  else
    '(cl, s) ← getmany nclen 3 s;
    let codebits :=
      foldr (fun p acc => <[p.1 := p.2]> acc) (replicate 19 O) (zip codeOrder cl) in
    if negb (complete codebits) then None
    else
      '(lens, s) ← readLengths (S (nlit + ndist)) (construct codebits)
                               (nlit + ndist) [] s;
      let l1 := take nlit lens in
      let l2 := drop nlit lens in
      if negb (complete l1 && complete l2) then None
      else Some (construct l1, construct l2, s).

(** The blocks of a DEFLATE stream, up to and including the final one. *)
Fixpoint blocks (fuel : nat) (out : list byte) (s : bits)
    : option (list byte * bits) :=
  match fuel with
  | O => None
  | S fuel' =>
      '(final, s) ← getbit s;
      '(typ, s) ← getbits 2 s;
      '(out, s) ←
        (if (typ =? 0)%N then dataBlock out s
         else if (typ =? 1)%N then huffmanBlock fuel' fixed_lit fixed_dist out s
         else if (typ =? 2)%N then
           '(lit, dist, s) ← readHuffman s;
           huffmanBlock fuel' lit dist out s
         else None);
      if final : bool then Some (out, s) else blocks fuel' out s
  end.

(** The whole stream at the head of [data]: the output, and the bytes
    after the last byte the stream used.  Every symbol and every block
    takes at least one bit, so the number of bits is fuel enough. *)
Definition inflate (data : list byte) : option (list byte * list byte) :=
  '(out, s) ← blocks (8 * length data + 8) [] (mkBits [] data);
  Some (rev out, rest s).

End flate.

Module crc32.

Definition step (c : N) : N :=
  if N.testbit c 0 then N.lxor (N.shiftr c 1) 3988292384%N else N.shiftr c 1.

Definition update_byte (c : N) (b : byte) : N :=
  Nat.iter 8 step (N.lxor c (Byte.to_N b)).

(** [crc32.ChecksumIEEE]. *)
Definition ChecksumIEEE (data : list byte) : N :=
  N.lxor (fold_left update_byte data 4294967295%N) 4294967295%N.

End crc32.

Module gzip_ref.

(** A NUL-terminated string of the header ([Reader.readString]): at most
    511 bytes before the NUL.  Returns what follows it. *)
Fixpoint readString (room : nat) (data : list byte) : option (list byte) :=
  match room, data with
  | S room', b :: t => if Byte.eqb b x00 then Some t else readString room' t
  | _, _ => None
  end.

Definition flag (flg : byte) (i : N) : bool := N.testbit (Byte.to_N flg) i.

(** [Reader.readHeader]: the ten fixed bytes, then the optional fields
    the flags announce.  Returns the bytes after the header. *)
Definition readHeader (data : list byte) : option (list byte) :=
  match data with
  | id1 :: id2 :: cm :: flg :: _ :: _ :: _ :: _ :: _ :: _ :: t =>
      if negb (Byte.eqb id1 x1f && Byte.eqb id2 x8b && Byte.eqb cm x08) then None
      else
        t ← (if flag flg 2 then
               match t with
               | e0 :: e1 :: t' =>
                   let n := N.to_nat (Byte.to_N e0 + 256 * Byte.to_N e1) in
                   if decide (length t' < n)%nat then None else Some (drop n t')
               | _ => None
               end
             else Some t);
        t ← (if flag flg 3 then readString 512 t else Some t);
        t ← (if flag flg 4 then readString 512 t else Some t);
        if flag flg 1 then
          match t with
          | c0 :: c1 :: t' =>
              let seen := take (length data - length t)%nat data in
              if (Byte.to_N c0 + 256 * Byte.to_N c1
                  =? N.land (crc32.ChecksumIEEE seen) 65535)%N
              then Some t' else None
          | _ => None
          end
        else Some t
  | _ => None
  end.

Definition le32 (b0 b1 b2 b3 : byte) : N :=
  (Byte.to_N b0 + 256 * (Byte.to_N b1 + 256 * (Byte.to_N b2 + 256 * Byte.to_N b3)))%N.

(** [Reader.Read] to the end: the member whose header has been read, its
    trailer (CRC-32 and size, both checked), and then either the end of
    the data or the header of a further member. *)
Fixpoint members (fuel : nat) (data : list byte) : option (list byte) :=
  match fuel with
  | O => None
  | S fuel' =>
      '(out, t) ← flate.inflate data;
      match t with
      | c0 :: c1 :: c2 :: c3 :: s0 :: s1 :: s2 :: s3 :: t' =>
          if negb ((le32 c0 c1 c2 c3 =? crc32.ChecksumIEEE out)%N
                   && (le32 s0 s1 s2 s3
                       =? N.of_nat (length out) mod 4294967296)%N)
          then None
          else
            match t' with
            | [] => Some out
            | _ :: _ =>
                t'' ← readHeader t';
                more ← members fuel' t'';
                Some (out ++ more)
            end
      | _ => None
      end
  end.

(** The reader is the data after the first header; a member takes more
    than one byte, so the length of the data is fuel enough. *)
Definition gzip_ref : gzip.Lib := {|
  gzip.Reader := list byte;
  gzip.NewReader := readHeader;
  gzip.ReadAll := fun data => members (S (length data)) data
|}.

End gzip_ref.

(* ===================================================================== *)
(** ** A reference URL parser, after [net/url] *)
(* ===================================================================== *)

Module url_ref.

(** [strings.Cut(s, sep)] for a one-byte separator. *)
Fixpoint Cut (s : string) (sep : ascii) : string * string * bool :=
  match s with
  | EmptyString => (EmptyString, EmptyString, false)
  | String c t =>
      if Ascii.eqb c sep then (EmptyString, t, true)
      else let '(b, a, found) := Cut t sep in (String c b, a, found)
  end.

(** The cut at the last occurrence ([strings.LastIndex]), if there is one. *)
Definition CutLast (s : string) (sep : ascii) : option (string * string) :=
  let '(a, b, found) := Cut (strings.rev_str s) sep in
  if found then Some (strings.rev_str b, strings.rev_str a) else None.

Definition code (c : ascii) : nat := nat_of_ascii c.

Definition isLetter (c : ascii) : bool :=
  ((97 <=? code c) && (code c <=? 122) || (65 <=? code c) && (code c <=? 90))%nat.
Definition isDigit (c : ascii) : bool := ((48 <=? code c) && (code c <=? 57))%nat.
Definition ishex (c : ascii) : bool :=
  isDigit c || ((97 <=? code c) && (code c <=? 102)
                || (65 <=? code c) && (code c <=? 70))%nat.
Definition unhex (c : ascii) : nat :=
  if isDigit c then (code c - 48)%nat
  else if (97 <=? code c)%nat then (code c - 97 + 10)%nat
  else (code c - 65 + 10)%nat.

(** [stringContainsCTLByte]. *)
Definition stringContainsCTLByte (s : string) : bool :=
  existsb (fun c => (code c <? 32)%nat || (code c =? 127)%nat)
          (list_ascii_of_string s).

Inductive schemeEnd : Type := NoScheme | ColonAt (i : nat) | ColonFirst.

Fixpoint scanScheme (i : nat) (s : string) : schemeEnd :=
  match s with
  | EmptyString => NoScheme
  | String c t =>
      if isLetter c then scanScheme (S i) t
      else if isDigit c || bool_decide (c ∈ ["+"; "-"; "."]%char)
      then match i with O => NoScheme | _ => scanScheme (S i) t end
      else if Ascii.eqb c ":"
      then match i with O => ColonFirst | _ => ColonAt i end
      else NoScheme
  end.

(** [getScheme]: the scheme and what follows its colon. *)
Definition getScheme (rawURL : string) : string * string + errors.error :=
  match scanScheme 0 rawURL with
  | NoScheme => inl (EmptyString, rawURL)
  | ColonFirst => inr (errors.New "missing protocol scheme")
  | ColonAt i => inl (String.substring 0 i rawURL, strings.drop_str (S i) rawURL)
  end.

Inductive encoding : Type :=
  encodePath | encodeHost | encodeZone | encodeUserPassword | encodeFragment.

(** [shouldEscape(c, encodeHost)]. *)
Definition shouldEscapeHost (c : ascii) : bool :=
  negb (isLetter c || isDigit c
        || bool_decide (c ∈ ["!"; "$"; "&"; "'"; "("; ")"; "*"; "+"; ","; ";";
                             "="; ":"; "["; "]"; "<"; ">"; "034";
                             "-"; "_"; "."; "~"]%char)).

Definition hostLike (mode : encoding) : bool :=
  match mode with encodeHost | encodeZone => true | _ => false end.

(** [unescape(s, mode)] for the modes [Parse] uses: every [%] is followed
    by two hex digits, which it stands for; in a host only bytes above
    127 and [%25] may be written so, and the ASCII bytes of a host are
    those a host may hold. *)
Fixpoint unescape (s : string) (mode : encoding) : string + errors.error :=
  match s with
  | EmptyString => inl EmptyString
  | String "%" t =>
      match t with
      | String a (String b t') =>
          if negb (ishex a && ishex b)
          then inr (errors.EscapeError (String.substring 0 3 s))
          else if match mode with encodeHost => true | _ => false end
                  && (unhex a <? 8)%nat
                  && negb (String.eqb (String.substring 0 3 s) "%25")
          then inr (errors.EscapeError (String.substring 0 3 s))
          else
            let v := ascii_of_nat (16 * unhex a + unhex b) in
            if match mode with encodeZone => true | _ => false end
               && negb (String.eqb (String.substring 0 3 s) "%25")
               && negb (Ascii.eqb v " ") && shouldEscapeHost v
            then inr (errors.EscapeError (String.substring 0 3 s))
            else
              match unescape t' mode with
              | inl r => inl (String v r)
              | inr e => inr e
              end
      | _ => inr (errors.EscapeError s)
      end
  | String c t =>
      if hostLike mode && (code c <? 128)%nat && shouldEscapeHost c
      then inr (errors.InvalidHostError (String c EmptyString))
      else
        match unescape t mode with
        | inl r => inl (String c r)
        | inr e => inr e
        end
  end.

(** [validOptionalPort]: empty, or a colon and digits. *)
Definition validOptionalPort (port : string) : bool :=
  match port with
  | EmptyString => true
  | String c t => Ascii.eqb c ":" && forallb isDigit (list_ascii_of_string t)
  end.

(** [validUserinfo]. *)
Definition validUserinfo (s : string) : bool :=
  forallb (fun c => isLetter c || isDigit c
                    || bool_decide (c ∈ ["-"; "."; "_"; ":"; "~"; "!"; "$"; "&";
                                         "'"; "("; ")"; "*"; "+"; ","; ";"; "=";
                                         "%"; "@"]%char))
          (list_ascii_of_string s).

(** Offset of the first occurrence of [sub] in [s] ([strings.Index]). *)
Fixpoint Index (s sub : string) : option nat :=
  if strings.HasPrefix s sub then Some O
  else match s with
       | EmptyString => None
       | String _ t => S <$> Index t sub
       end.

(** [parseHost]. *)
Definition parseHost (host : string) : string + errors.error :=
  if strings.HasPrefix host "["
  then
    match CutLast host "]" with
    | None => inr (errors.New "missing ']' in host")
    | Some (inside, colonPort) =>
        if negb (validOptionalPort colonPort)
        then inr (errors.Errorf "invalid port %q after host" colonPort)
        else
          match Index inside "%25" with
          | Some zone =>
              match unescape (String.substring 0 zone host) encodeHost with
              | inr e => inr e
              | inl host1 =>
                  match unescape (strings.drop_str zone inside) encodeZone with
                  | inr e => inr e
                  | inl host2 =>
                      match unescape (String "]" colonPort) encodeHost with
                      | inr e => inr e
                      | inl host3 => inl (host1 ++ host2 ++ host3)%string
                      end
                  end
              end
          | None => unescape host encodeHost
          end
    end
  else
    match CutLast host ":" with
    | Some (_, port) =>
        if negb (validOptionalPort (String ":" port))
        then inr (errors.Errorf "invalid port %q after host" (String ":" port))
        else unescape host encodeHost
    | None => unescape host encodeHost
    end.

(** [parseAuthority]: the user, if any, and the host. *)
Definition parseAuthority (authority : string)
    : option (string * option string) * string + errors.error :=
  match CutLast authority "@" with
  | None =>
      match parseHost authority with
      | inr e => inr e
      | inl host => inl (None, host)
      end
  | Some (userinfo, hostpart) =>
      match parseHost hostpart with
      | inr e => inr e
      | inl host =>
          if negb (validUserinfo userinfo)
          then inr (errors.New "net/url: invalid userinfo")
          else
            let '(username, password, hasPassword) := Cut userinfo ":" in
            match unescape username encodeUserPassword with
            | inr e => inr e
            | inl username =>
                if hasPassword then
                  match unescape password encodeUserPassword with
                  | inr e => inr e
                  | inl password => inl (Some (username, Some password), host)
                  end
                else inl (Some (username, None), host)
            end
      end
  end.

(** [parse(rawURL, viaRequest)] with [viaRequest = false], which is how
    [Parse] calls it. *)
Definition parse (rawURL : string) : url.URL + errors.error :=
  if stringContainsCTLByte rawURL
  then inr (errors.New "net/url: invalid control character in URL")
  else if String.eqb rawURL "*"
  then inl (url.mkURL "" "" None "" "*" "" "")
  else
    match getScheme rawURL with
    | inr e => inr e
    | inl (scheme, rest) =>
        let scheme := strings.ToLower scheme in
        let '(rest, rawQuery, _) := Cut rest "?" in
        if negb (strings.HasPrefix rest "/") && negb (String.eqb scheme "")
        then inl (url.mkURL scheme rest None "" "" rawQuery "")
        else if negb (strings.HasPrefix rest "/")
                && strings.Contains (Cut rest "/").1.1 ":"
        then inr (errors.New "first path segment in URL cannot contain colon")
        else
          let authority_rest :=
            if (negb (String.eqb scheme "") || negb (strings.HasPrefix rest "///"))
               && strings.HasPrefix rest "//"
            then
              let a := strings.drop_str 2 rest in
              match Index a "/" with
              | Some i => (Some (String.substring 0 i a), strings.drop_str i a)
              | None => (Some a, EmptyString)
              end
            else (None, rest) in
          match (match authority_rest.1 with
                 | Some authority => parseAuthority authority
                 | None => inl (None, EmptyString)
                 end) with
          | inr e => inr e
          | inl (user, host) =>
              match unescape authority_rest.2 encodePath with
              | inr e => inr e
              | inl path => inl (url.mkURL scheme "" user host path rawQuery "")
              end
          end
    end.

(** [url.Parse]: the fragment is cut off first and unescaped last. *)
Definition Parse (rawURL : string) : url.URL + errors.error :=
  let '(u, frag, _) := Cut rawURL "#" in
  match parse u with
  | inr e => inr (errors.URLError "parse" u e)
  | inl parsed =>
      if String.eqb frag "" then inl parsed
      else
        match unescape frag encodeFragment with
        | inr e => inr (errors.URLError "parse" rawURL e)
        | inl f =>
            inl (url.mkURL (url.Scheme parsed) (url.Opaque parsed) (url.User parsed)
                           (url.Host parsed) (url.Path parsed)
                           (url.RawQuery parsed) f)
        end
  end.

Definition url_ref : url.Lib := {| url.Parse := Parse |}.

End url_ref.

(* ===================================================================== *)
(** ** The host's side: configuration and router *)
(* ===================================================================== *)

Module config.

(** The two fields of [config.Config] the module reads. *)
Record Config : Type := mkConfig {
  AmpUpstreamURL : string;
  AmpUpstreamAPIKey : string
}.

End config.

Module gin.

Inductive Method : Type := Any | GET | POST.

(** The handlers that get registered, by name. *)
Inductive HandlerFunc : Type :=
| proxyHandler                 (* [proxyHandler(proxy)] *)
| ampModelsHandler
| ChatCompletions | Completions | Responses
| ClaudeMessages | ClaudeCountTokens
| GeminiModels | GeminiHandler | GeminiGetHandler
| hostAuth                     (* the middleware given to [New] *)
| allowAll.                    (* the fallback that only calls [c.Next()] *)

(** One registration: method, full path, group middleware, handler. *)
Record Route : Type := mkRoute {
  method : Method;
  path : string;
  middleware : list HandlerFunc;
  handler : HandlerFunc
}.

(** [gin.Engine]: the routes in the order they were registered. *)
Abbreviation Engine := (list Route).

End gin.

(* ===================================================================== *)
(** ** Package [amp]: amp.go and routes.go *)
(* ===================================================================== *)

Module ampmodule.

(** What amp.go needs of secret.go beyond the [SecretSource] interface. *)
Class MultiSource (S : Type) : Type := {
  source : amp.SecretSource S;
  NewMultiSourceSecret : string -> Z -> S;
  InvalidateCache : S -> S
}.
#[global] Existing Instance source.

(** [AmpModule]; the access manager plays no part here. *)
Record AmpModule (S : Type) : Type := mkModule {
  secretSource : option S;
  proxy : option (amp.ReverseProxy S);
  authMiddleware_ : option gin.HandlerFunc;
  enabled : bool
}.
Arguments mkModule {S} _ _ _ _.
Arguments secretSource {S} _.
Arguments proxy {S} _.
Arguments authMiddleware_ {S} _.
Arguments enabled {S} _.

(** [New(accessManager, authMiddleware)]. *)
Definition New {S : Type} (authMiddleware : option gin.HandlerFunc) : AmpModule S :=
  mkModule None None authMiddleware false.

Definition Name {S : Type} (m : AmpModule S) : string := "amp-routing".

(** [AmpModule.authMiddleware]. *)
Definition authMiddleware {S : Type} (m : AmpModule S) : gin.HandlerFunc :=
  match authMiddleware_ m with
  | Some mw => mw
  | None => gin.allowAll
  end.

(** The routes of [registerManagementRoutes], under the group [/api]. *)
Definition managementRoutes : list gin.Route :=
  map (fun p => gin.mkRoute gin.Any ("/api" ++ p)%string [] gin.proxyHandler)
      ["/internal"; "/internal/*path"; "/user"; "/user/*path";
       "/auth"; "/auth/*path"; "/meta"; "/meta/*path"; "/ads";
       "/telemetry"; "/telemetry/*path"; "/threads"; "/threads/*path";
       "/otel"; "/otel/*path"; "/provider/google/v1beta1/*path"].

Definition registerManagementRoutes {S : Type} (m : AmpModule S)
    (engine : gin.Engine) : gin.Engine :=
  engine ++ managementRoutes.

(** The routes of [registerProviderAliases], under
    [/api/provider/:provider], all behind the module's middleware. *)
Definition providerAliases (auth : gin.HandlerFunc) : list gin.Route :=
  map (fun r : gin.Method * string * gin.HandlerFunc =>
         gin.mkRoute r.1.1 ("/api/provider/:provider" ++ r.1.2)%string [auth] r.2)
      [ (gin.GET, "/models", gin.ampModelsHandler);
        (gin.POST, "/chat/completions", gin.ChatCompletions);
        (gin.POST, "/completions", gin.Completions);
        (gin.POST, "/responses", gin.Responses);
        (gin.GET, "/v1/models", gin.ampModelsHandler);
        (gin.POST, "/v1/chat/completions", gin.ChatCompletions);
        (gin.POST, "/v1/completions", gin.Completions);
        (gin.POST, "/v1/responses", gin.Responses);
        (gin.POST, "/v1/messages", gin.ClaudeMessages);
        (gin.POST, "/v1/messages/count_tokens", gin.ClaudeCountTokens);
        (gin.GET, "/v1beta/models", gin.GeminiModels);
        (gin.POST, "/v1beta/models/:action", gin.GeminiHandler);
        (gin.GET, "/v1beta/models/:action", gin.GeminiGetHandler) ].

Definition registerProviderAliases {S : Type} (m : AmpModule S)
    (engine : gin.Engine) : gin.Engine :=
  engine ++ providerAliases (authMiddleware m).

(** [AmpModule.Register]: the module and the engine afterwards, and the
    error returned. *)
Definition Register `{G : gzip.Lib} `{U : url.Lib} `{H : httputil.Lib}
    {S : Type} `{MS : MultiSource S}
    (m : AmpModule S) (engine : gin.Engine) (cfg : config.Config)
    : AmpModule S * gin.Engine * option errors.error :=
  let upstreamURL := strings.TrimSpace (config.AmpUpstreamURL cfg) in
  if String.eqb upstreamURL ""
  then (mkModule (secretSource m) (proxy m) (authMiddleware_ m) false, engine, None)
  else
    let secretSource := NewMultiSourceSecret (config.AmpUpstreamAPIKey cfg) 0 in
    let m := mkModule (Some secretSource) (proxy m) (authMiddleware_ m) (enabled m) in
    match amp.createReverseProxy upstreamURL with
    | (_, Some err) =>
        (m, engine, Some (errors.Wrapf "failed to create amp proxy: %w" err))
    | (proxy, None) =>
        let m := mkModule (ampmodule.secretSource m) proxy (authMiddleware_ m) true in
        let engine := registerManagementRoutes m engine in
        let engine := registerProviderAliases m engine in
        (m, engine, None)
    end.

(** [AmpModule.OnConfigUpdated]. *)
Definition OnConfigUpdated {S : Type} `{MS : MultiSource S}
    (m : AmpModule S) (cfg : config.Config) : AmpModule S * option errors.error :=
  if negb (enabled m) then (m, None)
  else if String.eqb (strings.TrimSpace (config.AmpUpstreamURL cfg)) ""
  then (m, None)
  else
    (mkModule (InvalidateCache <$> secretSource m) (proxy m)
              (authMiddleware_ m) (enabled m), None).

(** Modelled from the spec: secret.go is not among the sources.  The
    static source "returns the fixed value, never errors". *)
Definition NewStaticSecretSource (key : string) : string := key.

Definition StaticSecretSource : amp.SecretSource string :=
  {| amp.Get := fun key _ => ((key, None), key) |}.

(** Modelled from the spec: a multi-source secret whose environment
    variable and file are empty, so that "the first non-empty result" is
    the explicit configuration value or nothing. *)
Definition explicit_only : MultiSource string := {|
  source := StaticSecretSource;
  NewMultiSourceSecret := fun key _ => key;
  InvalidateCache := fun s => s
|}.

End ampmodule.

(* ===================================================================== *)
(** ** Package [openai]: endpoint_compat.go *)
(* ===================================================================== *)

Module registry.

(** The fields of [registry.ModelInfo] that are read. *)
Record ModelInfo : Type := mkModelInfo {
  ID : string;
  SupportedEndpoints : list string
}.

(** [GetGlobalRegistry().GetModelInfo(modelID, provider)]; [None] is the
    nil pointer. *)
Class Registry : Type := {
  GetModelInfo : string -> string -> option ModelInfo
}.

(** Modelled from the spec: the registry is not among the sources.  The
    capability descriptor is looked up "by exact identifier". *)
Definition of_map (models : gmap string ModelInfo) : Registry :=
  {| GetModelInfo := fun modelID _ => models !! modelID |}.

End registry.

Module thinking.

Record SuffixResult : Type := mkSuffixResult {
  ModelName : string;
  HasSuffix : bool;
  RawSuffix : string
}.

(** [thinking.ParseSuffix], a parameter of the resolver. *)
Class Lib : Type := { ParseSuffix : string -> SuffixResult }.

(** Modelled from the spec: package thinking is not among the sources.
    The modifier suffix is "a trailing reasoning-effort qualifier in
    parentheses": a name that ends with [)] and has a [(] is cut at its
    last [(]. *)
Definition parens : Lib := {|
  ParseSuffix := fun model =>
    match url_ref.CutLast model "(" with
    | Some (base, tail) =>
        match strings.rev_str tail with
        | String ")" inner => mkSuffixResult base true (strings.rev_str inner)
        | _ => mkSuffixResult model false ""
        end
    | None => mkSuffixResult model false ""
    end
|}.

End thinking.

Module openai.

Definition openAIChatEndpoint : string := "/chat/completions".
Definition openAIResponsesEndpoint : string := "/responses".

Fixpoint endpointListContains (items : list string) (value : string) : bool :=
  match items with
  | [] => false
  | item :: items' =>
      if String.eqb item value then true else endpointListContains items' value
  end.

(** The descriptor [resolveEndpointOverride] ends up with (lines 17-23),
    and the identifiers it asked the registry for, in order. *)
Definition lookupInfo `{R : registry.Registry} `{T : thinking.Lib}
    (modelName : string) : option registry.ModelInfo * list string :=
  match registry.GetModelInfo modelName "" with
  | Some info => (Some info, [modelName])
  | None =>
      let baseModel := thinking.ModelName (thinking.ParseSuffix modelName) in
      if negb (String.eqb baseModel "") && negb (String.eqb baseModel modelName)
      then (registry.GetModelInfo baseModel "", [modelName; baseModel])
      else (None, [modelName])
  end.

(** [resolveEndpointOverride] (lines 13-37). *)
Definition resolveEndpointOverride `{R : registry.Registry} `{T : thinking.Lib}
    (modelName requestedEndpoint : string) : string * bool :=
  if String.eqb modelName "" then ("", false)
  else
    match (lookupInfo modelName).1 with
    | None => ("", false)
    | Some info =>
        let supported := registry.SupportedEndpoints info in
        if (length supported =? 0)%nat then ("", false)
        else if endpointListContains supported requestedEndpoint then ("", false)
        else if String.eqb requestedEndpoint openAIChatEndpoint
                && endpointListContains supported openAIResponsesEndpoint
        then (openAIResponsesEndpoint, true)
        else if String.eqb requestedEndpoint openAIResponsesEndpoint
                && endpointListContains supported openAIChatEndpoint
        then (openAIChatEndpoint, true)
        else ("", false)
    end.

(** The fixed compatibility mapping in the words of the specification:
    what to answer for a request, given the set of supported shapes. *)
Inductive mapping (supported : list string) (requested : string)
    : string * bool -> Prop :=
| pass_through :
    requested ∈ supported -> mapping supported requested ("", false)
| chat_to_responses :
    requested ∉ supported -> requested = "/chat/completions" ->
    "/responses" ∈ supported ->
    mapping supported requested ("/responses", true)
| responses_to_chat :
    requested ∉ supported -> requested = "/responses" ->
    "/chat/completions" ∈ supported ->
    mapping supported requested ("/chat/completions", true)
| other_mismatch :
    requested ∉ supported ->
    ~ (requested = "/chat/completions" /\ "/responses" ∈ supported) ->
    ~ (requested = "/responses" /\ "/chat/completions" ∈ supported) ->
    mapping supported requested ("", false).

End openai.

(* ===================================================================== *)
(** ** The two listings side by side, and the data of the test suite *)
(* ===================================================================== *)

(** proxy.go comes in two listings: [peek] reads two bytes and then the
    rest (lines 1-152), [tee] reads through a tee reader (lines 154-305). *)
Inductive listing : Type := peek | tee.

Definition isStreamingResponse_of (l : listing) : Response.t -> bool :=
  match l with
  | peek => amp.isStreamingResponse
  | tee => amp_tee.isStreamingResponse
  end.

Definition ModifyResponse_of `{G : gzip.Lib} (l : listing)
    : Response.t -> Response.t * option errors.error :=
  match l with
  | peek => amp.proxy_ModifyResponse
  | tee => amp_tee.proxy_ModifyResponse
  end.


(** The data starts with the gzip magic bytes 1F 8B. *)
Definition gzip_magic (b : list byte) : bool :=
  match b with
  | b0 :: b1 :: _ => Byte.eqb b0 x1f && Byte.eqb b1 x8b
  | _ => false
  end.

(** The data is too short to start with the magic bytes, or starts with
    two other bytes. *)
Definition not_gzip (b : list byte) : Prop :=
  (length b < 2)%nat
  \/ exists b0 b1 t, b = b0 :: b1 :: t /\ (b0 <> x1f \/ b1 <> x8b).

(** Status in [200, 300). *)
Definition success (resp : Response.t) : Prop :=
  200 <= Response.StatusCode resp < 300.

(** A string made of white-space runes only; the empty string is one. *)
Definition whitespace_only (s : string) : Prop :=
  exists ws : list string, Forall (fun w => w ∈ strings.spaces) ws
                           /\ s = foldr String.append "" ws.

(** The address parses and has a scheme. *)
Definition well_formed_absolute `{U : url.Lib} (s : string) : bool :=
  match url.Parse s with
  | inl u => url.IsAbs u
  | inr _ => false
  end.

(** [mkResp(status, hdr, body)] of proxy_test.go. *)
Definition mkResp (status : Z) (hdr : http.Header) (body : list byte) : Response.t :=
  Response.mk status hdr (io.NewReader body) (Z.of_nat (length body)).

(** The JSON text [{"ok":true}] of the tests, and a gzip stream of it
    (ten header bytes, one block with the fixed code, CRC-32 and size). *)
Definition goodJSON : list byte :=
  [x7b; x22; x6f; x6b; x22; x3a; x74; x72; x75; x65; x7d].

Definition good : list byte :=
  [x1f; x8b; x08; x00; x00; x00; x00; x00; x02; xff;
   xab; x56; xca; xcf; x56; xb2; x2a; x29; x2a; x4d; xad; x05; x00;
   x90; x5f; xd4; xa7; x0b; x00; x00; x00].

(** [good[:10]], and the magic bytes followed by the text [notgzip]. *)
Definition truncated : list byte := take 10 good.

Definition corrupted : list byte :=
  [x1f; x8b; x6e; x6f; x74; x67; x7a; x69; x70].

(** Responses of the tests for streaming: the gzip stream behind an
    event-stream content type and behind a chunked transfer encoding; and
    behind an event-stream content type in another case. *)
Definition sse_gzip : Response.t :=
  mkResp 200 {[ "Content-Type" := ["text/event-stream"] ]} good.

(** The request of the director tests, [GET /test], the upstream it is
    proxied to, and the director run on it with a static secret. *)
Definition test_request : Request.t :=
  Request.mk "GET" (url.mkURL "" "" None "" "/test" "" "") "localhost" ∅
             (context.mkContext false).

Definition test_upstream : url.URL :=
  url.mkURL "http" "" None "127.0.0.1:8080" "" "" "".

Definition run_director (key : string) : Request.t :=
  (amp.proxy_Director (SS := ampmodule.StaticSecretSource)
     (httputil.rewriteRequestURL test_upstream) test_upstream test_request
     (ampmodule.NewStaticSecretSource key)).1.

(** [createReverseProxy] and [Register] with the reference libraries;
    the module is a new one, the engine has no route yet. *)
Definition createReverseProxy_ref (upstreamURL : string)
    : option (amp.ReverseProxy string) * option errors.error :=
  amp.createReverseProxy (G := gzip_ref.gzip_ref) (U := url_ref.url_ref)
    (H := httputil.httputil_ref) (SS := ampmodule.StaticSecretSource) upstreamURL.

Definition Register_ref (upstreamURL : string)
    : ampmodule.AmpModule string * gin.Engine * option errors.error :=
  ampmodule.Register (G := gzip_ref.gzip_ref) (U := url_ref.url_ref)
    (H := httputil.httputil_ref) (MS := ampmodule.explicit_only)
    (ampmodule.New (Some gin.hostAuth)) [] (config.mkConfig upstreamURL "k").

(** The registry of endpoint_compat_test.go: one chat-only model. *)
Definition test_registry : registry.Registry :=
  registry.of_map
    {[ "test-gemini-chat-only" :=
         registry.mkModelInfo "test-gemini-chat-only" [openai.openAIChatEndpoint] ]}.

(* ===================================================================== *)
(** ** routes.go: the models handler; helpers for the statements below *)
(* ===================================================================== *)

Module routes.

(** The three handlers [ampModelsHandler] chooses from. *)
Inductive ModelsHandler : Type := ClaudeModels | GeminiModels | OpenAIModels.

(** [ampModelsHandler] (proxy.go lines 363-375); [provider] is
    [c.Param("provider")]. *)
Definition ampModelsHandler (provider : string) : ModelsHandler :=
  let providerName := strings.ToLower provider in
  if String.eqb providerName "anthropic" then ClaudeModels
  else if String.eqb providerName "google" then GeminiModels
  else OpenAIModels.

End routes.

(** Every byte is below 128. *)
Definition ascii_only (s : string) : Prop :=
  Forall (fun c => (nat_of_ascii c < 128)%nat) (list_ascii_of_string s).

(** The string with each ASCII capital replaced by its small letter. *)
Fixpoint lower_bytes (s : string) : string :=
  match s with
  | EmptyString => EmptyString
  | String c t => String (strings.lower_ascii c) (lower_bytes t)
  end.

(** Method and path of a route, as one string. *)
Definition route_key (r : gin.Route) : string :=
  ((match gin.method r with
    | gin.Any => "ANY" | gin.GET => "GET" | gin.POST => "POST"
    end) ++ " " ++ gin.path r)%string.

(** The headers of a response that the [peek] listing has decompressed
    to [len] bytes. *)
Definition decompressed_headers (h : http.Header) (len : Z) : http.Header :=
  http.Set_ (http.Del (http.Del h "Content-Encoding") "Content-Length")
            "Content-Length" (strconv.FormatInt len).

(* ===================================================================== *)
(** * Properties *)
(* ===================================================================== *)

(** ** Readers and headers *)

Lemma with_Body_same (resp : Response.t) :
  amp.with_Body resp (Response.Body resp) = resp.
Proof. destruct resp; reflexivity. Qed.

Lemma ReadFull_restores (r : io.Reader) (size : nat) :
  io.MultiReader (io.ReadFull r size).1.1 (io.ReadFull r size).2 = r.
Proof.
  destruct r as [p f]. unfold io.ReadFull, io.MultiReader. simpl.
  destruct (decide (size ≤ length p)%nat); simpl.
  - rewrite take_drop. reflexivity.
  - rewrite app_nil_r. reflexivity.
Qed.

Lemma ReadFull_magic (r : io.Reader) :
  let header := (io.ReadFull r 2).1.1 in
  (2 <=? length header)%nat && Byte.eqb (nth 0 header x00) x1f
    && Byte.eqb (nth 1 header x00) x8b
  = gzip_magic (io.pending r).
Proof.
  destruct r as [[|a [|b t]] f]; reflexivity.
Qed.

Lemma gzip_magic_true (b : list byte) :
  gzip_magic b = true <-> exists t, b = x1f :: x8b :: t.
Proof.
  split.
  - destruct b as [|b0 [|b1 t]]; simpl; try discriminate.
    intros H. apply andb_prop in H as [H0 H1].
    apply Byte.byte_dec_bl in H0, H1. subst. eauto.
  - intros [t ->]. reflexivity.
Qed.

Lemma canonical_keys :
  http.CanonicalMIMEHeaderKey "Content-Encoding" = "Content-Encoding"
  /\ http.CanonicalMIMEHeaderKey "Content-Length" = "Content-Length"
  /\ http.CanonicalMIMEHeaderKey "Content-Type" = "Content-Type"
  /\ http.CanonicalMIMEHeaderKey "Transfer-Encoding" = "Transfer-Encoding"
  /\ http.CanonicalMIMEHeaderKey "X-Api-Key" = "X-Api-Key"
  /\ http.CanonicalMIMEHeaderKey "Authorization" = "Authorization".
Proof. repeat split; vm_compute; reflexivity. Qed.

Lemma Get_absent (h : http.Header) (key : string) :
  h !! http.CanonicalMIMEHeaderKey key = None -> http.Get h key = "".
Proof. unfold http.Get. intros ->. reflexivity. Qed.

Lemma success_guard (resp : Response.t) :
  success resp ->
  (Response.StatusCode resp <? 200) || (Response.StatusCode resp >=? 300) = false.
Proof.
  unfold success. intros [Hlo Hhi].
  rewrite Z.geb_leb.
  destruct (Z.ltb_spec (Response.StatusCode resp) 200); [lia|].
  destruct (Z.leb_spec 300 (Response.StatusCode resp)); [lia|].
  reflexivity.
Qed.

Lemma no_encoding_guard (h : http.Header) :
  http.Get h "Content-Encoding" = "" ->
  negb (String.eqb (http.Get h "Content-Encoding") "") = false.
Proof. intros ->. reflexivity. Qed.

(** ** The response normalizer: what it leaves alone *)

Section normalizer.
Context `{G : gzip.Lib}.

(** Whatever a listing classifies as a stream comes back as it went in. *)
Lemma streaming_untouched (l : listing) (resp : Response.t) :
  isStreamingResponse_of l resp = true ->
  ModifyResponse_of l resp = (resp, None).
Proof.
  intros Hs.
  destruct l; simpl in *;
    [unfold amp.proxy_ModifyResponse | unfold amp_tee.proxy_ModifyResponse];
    destruct ((Response.StatusCode resp <? 200) || (Response.StatusCode resp >=? 300));
    try reflexivity;
    destruct (negb (String.eqb (http.Get (Response.Header resp) "Content-Encoding") ""));
    try reflexivity;
    rewrite Hs; reflexivity.
Qed.

(** Outside [200, 300), or with a content encoding declared, too. *)
Lemma labelled_or_failed_untouched (l : listing) (resp : Response.t) :
  ~ success resp \/ http.Get (Response.Header resp) "Content-Encoding" <> "" ->
  ModifyResponse_of l resp = (resp, None).
Proof.
  intros H.
  assert ((Response.StatusCode resp <? 200) || (Response.StatusCode resp >=? 300) = true
          \/ negb (String.eqb (http.Get (Response.Header resp) "Content-Encoding") "") = true)
    as Hg.
  { destruct H as [H | H].
    - left. unfold success in H. rewrite Z.geb_leb.
      destruct (Z.ltb_spec (Response.StatusCode resp) 200); [reflexivity|].
      destruct (Z.leb_spec 300 (Response.StatusCode resp)); [reflexivity|]. lia.
    - right. destruct (String.eqb_spec (http.Get (Response.Header resp) "Content-Encoding") "");
        [contradiction | reflexivity]. }
  destruct l; simpl;
    [unfold amp.proxy_ModifyResponse | unfold amp_tee.proxy_ModifyResponse];
    destruct ((Response.StatusCode resp <? 200) || (Response.StatusCode resp >=? 300));
    try reflexivity;
    destruct Hg as [Hg | Hg]; try discriminate; rewrite Hg; reflexivity.
Qed.

(** A body that does not start with the magic bytes is put back together
    from the bytes peeked and the rest. *)
Lemma peek_non_gzip_restored (resp : Response.t) :
  success resp ->
  http.Get (Response.Header resp) "Content-Encoding" = "" ->
  amp.isStreamingResponse resp = false ->
  gzip_magic (io.pending (Response.Body resp)) = false ->
  amp.proxy_ModifyResponse resp = (resp, None).
Proof.
  intros Hst Hce Hs Hm. unfold amp.proxy_ModifyResponse.
  rewrite (success_guard _ Hst), (no_encoding_guard _ Hce), Hs.
  pose proof (ReadFull_magic (Response.Body resp)) as Hmagic.
  pose proof (ReadFull_restores (Response.Body resp) 2) as Hback.
  destruct (io.ReadFull (Response.Body resp) 2) as [[header e] body1].
  cbn [fst snd] in Hmagic, Hback. rewrite Hmagic, Hm, Hback, with_Body_same.
  reflexivity.
Qed.

Lemma tee_non_gzip_restored (resp : Response.t) :
  success resp ->
  http.Get (Response.Header resp) "Content-Encoding" = "" ->
  amp_tee.isStreamingResponse resp = false ->
  gzip_magic (io.pending (Response.Body resp)) = false ->
  amp_tee.proxy_ModifyResponse resp = (resp, None).
Proof.
  intros Hst Hce Hs Hm. unfold amp_tee.proxy_ModifyResponse.
  rewrite (success_guard _ Hst), (no_encoding_guard _ Hce), Hs.
  pose proof (ReadFull_magic (Response.Body resp)) as Hmagic.
  pose proof (ReadFull_restores (Response.Body resp) 2) as Hback.
  unfold io.Tee_ReadFull, io.TeeReader. cbn [io.src io.sink].
  destruct (io.ReadFull (Response.Body resp) 2) as [[header e] body1].
  cbn [fst snd io.src io.sink app] in *.
  rewrite Hmagic, Hm, Hback, with_Body_same.
  destruct e as [[| |msg]|]; reflexivity.
Qed.

End normalizer.

Lemma not_gzip_magic (b : list byte) : not_gzip b -> gzip_magic b = false.
Proof.
  intros [Hlen | (b0 & b1 & t & -> & Hne)].
  - destruct b as [|b0 [|b1 t]]; simpl in *; try reflexivity. lia.
  - simpl. apply andb_false_iff.
    destruct Hne as [Hne | Hne]; [left | right];
      apply not_true_is_false; intros Heq; apply Hne;
      apply Byte.byte_dec_bl; exact Heq.
Qed.

(** ** The response normalizer: a body that starts with the magic bytes *)

Section gzip_branch.
Context `{G : gzip.Lib}.
Variable resp : Response.t.
Variable body : list byte.
Hypothesis Hstatus : success resp.
Hypothesis Hencoding : http.Get (Response.Header resp) "Content-Encoding" = "".
Hypothesis Hbody : Response.Body resp = io.NewReader body.
Hypothesis Hmagic : gzip_magic body = true.

(** The [peek] listing hands the body to the gzip reader. *)
Lemma peek_gzip_branch :
  amp.isStreamingResponse resp = false ->
  amp.proxy_ModifyResponse resp =
    match gzip.NewReader body ≫= gzip.ReadAll with
    | None => (resp, None)
    | Some decompressed =>
        let len := Z.of_nat (length decompressed) in
        (Response.mk (Response.StatusCode resp)
           (http.Set_ (http.Del (http.Del (Response.Header resp) "Content-Encoding")
                                "Content-Length")
                      "Content-Length" (strconv.FormatInt len))
           (io.NewReader decompressed) len, None)
    end.
Proof.
  intros Hs. apply gzip_magic_true in Hmagic as [t Ht].
  unfold amp.proxy_ModifyResponse.
  rewrite (success_guard _ Hstatus), (no_encoding_guard _ Hencoding), Hs, Hbody, Ht.
  unfold io.ReadFull, io.NewReader. cbn [io.pending io.finish].
  destruct (decide (2 ≤ length (x1f :: x8b :: t))%nat) as [_|Hn];
    [| simpl in Hn; lia].
  cbn -[gzip.NewReader gzip.ReadAll http.Set_ http.Del strconv.FormatInt].
  rewrite !take_0, !drop_0. cbn [app].
  assert (amp.with_Body resp (io.mkReader (x1f :: x8b :: t) io.EOF) = resp) as Hsame.
  { rewrite <- Ht. change (io.mkReader body io.EOF) with (io.NewReader body).
    rewrite <- Hbody. apply with_Body_same. }
  destruct (gzip.NewReader (x1f :: x8b :: t)) as [r|]; cbn [mbind option_bind];
    [destruct (gzip.ReadAll r) as [d|] |]; rewrite ?Hsame; reflexivity.
Qed.

(** The [tee] listing hands it the body followed by the body without its
    first two bytes: the tee has copied the rest of the body into the
    buffer by the time the rest is appended to the buffer's content. *)
Lemma tee_gzip_branch :
  amp_tee.isStreamingResponse resp = false ->
  amp_tee.proxy_ModifyResponse resp =
    let gzippedData := body ++ drop 2 body in
    match gzip.NewReader gzippedData ≫= gzip.ReadAll with
    | None => (amp.with_Body resp (io.NewReader gzippedData), None)
    | Some decompressed =>
        (Response.mk (Response.StatusCode resp)
           (http.Del (Response.Header resp) "Content-Encoding")
           (io.NewReader decompressed) (Z.of_nat (length decompressed)), None)
    end.
Proof.
  intros Hs. apply gzip_magic_true in Hmagic as [t Ht].
  unfold amp_tee.proxy_ModifyResponse.
  rewrite (success_guard _ Hstatus), (no_encoding_guard _ Hencoding), Hs, Hbody, Ht.
  unfold io.Tee_ReadFull, io.Tee_ReadAll, io.TeeReader, io.ReadFull, io.NewReader.
  cbn [io.pending io.finish io.src io.sink].
  destruct (decide (2 ≤ length (x1f :: x8b :: t))%nat) as [_|Hn];
    [| simpl in Hn; lia].
  cbn -[gzip.NewReader gzip.ReadAll http.Set_ http.Del strconv.FormatInt].
  rewrite !take_0, !drop_0. cbn [app].
  destruct (gzip.NewReader (x1f :: x8b :: t ++ t)) as [r|]; cbn [mbind option_bind];
    [destruct (gzip.ReadAll r) as [d|] |]; reflexivity.
Qed.

End gzip_branch.

(** ** Streaming classification *)




(** ** Bodies that are not gzip *)

(** C8.  For a response with a status in [200, 300), no content encoding
    and no streaming classification, whose body is empty, one byte long,
    or starts with two bytes other than 1F 8B, either listing returns the
    response with the body put back together from the peeked bytes and
    the rest: the reader delivers the bytes it would have delivered, and
    ends as it would have ended. *)
Theorem non_gzip_body_forwarded `{G : gzip.Lib} (l : listing) (resp : Response.t) :
  success resp ->
  http.Get (Response.Header resp) "Content-Encoding" = "" ->
  isStreamingResponse_of l resp = false ->
  not_gzip (io.pending (Response.Body resp)) ->
  ModifyResponse_of l resp = (resp, None).
Proof.
  intros Hst Hce Hs Hb. apply not_gzip_magic in Hb.
  destruct l; simpl in *.
  - apply peek_non_gzip_restored; assumption.
  - apply tee_non_gzip_restored; assumption.
Qed.

Lemma non_gzip_body_forwarded_witness :
  success (mkResp 200 ∅ [x1f])
  /\ http.Get (Response.Header (mkResp 200 ∅ [x1f])) "Content-Encoding" = ""
  /\ isStreamingResponse_of tee (mkResp 200 ∅ [x1f]) = false
  /\ not_gzip (io.pending (Response.Body (mkResp 200 ∅ [x1f])))
  /\ ModifyResponse_of (G := gzip_ref.gzip_ref) tee (mkResp 200 ∅ [x1f])
     = (mkResp 200 ∅ [x1f], None).
Proof.
  assert (success (mkResp 200 ∅ [x1f])) as H1 by (unfold success; simpl; lia).
  assert (http.Get (Response.Header (mkResp 200 ∅ [x1f])) "Content-Encoding" = "")
    as H2 by reflexivity.
  assert (isStreamingResponse_of tee (mkResp 200 ∅ [x1f]) = false)
    as H3 by (vm_compute; reflexivity).
  assert (not_gzip (io.pending (Response.Body (mkResp 200 ∅ [x1f]))))
    as H4 by (left; simpl; lia).
  refine (conj H1 (conj H2 (conj H3 (conj H4 _)))).
  exact (non_gzip_body_forwarded (G := gzip_ref.gzip_ref) tee _ H1 H2 H3 H4).
Defined.

(** ** Gzip bodies *)

Lemma gzip_ref_checks_magic : gzip.checks_magic gzip_ref.gzip_ref.
Proof.
  intros d r. simpl. unfold gzip_ref.readHeader.
  destruct d as [|id1 [|id2 [|cm [|flg [|m0 [|m1 [|m2 [|m3 [|xfl [|os t]]]]]]]]]];
    try discriminate.
  destruct (Byte.eqb id1 x1f) eqn:E1; [|discriminate].
  destruct (Byte.eqb id2 x8b) eqn:E2; [|discriminate].
  apply Byte.byte_dec_bl in E1, E2. subst. eauto.
Qed.

(** The gzip round trip in the [peek] listing: a body the gzip reader
    decodes to [P] is replaced by [P], the length becomes that of [P] in
    the field and in the header, and no Content-Encoding is left. *)
Lemma peek_gzip_round_trip `{G : gzip.Lib} (resp : Response.t)
    (body P : list byte) (r : gzip.Reader) :
  gzip.checks_magic G ->
  success resp ->
  Response.Header resp !! "Content-Encoding" = None ->
  amp.isStreamingResponse resp = false ->
  Response.Body resp = io.NewReader body ->
  gzip.NewReader body = Some r ->
  gzip.ReadAll r = Some P ->
  exists h : http.Header,
    amp.proxy_ModifyResponse resp
    = (Response.mk (Response.StatusCode resp) h (io.NewReader P)
                   (Z.of_nat (length P)), None)
    /\ h !! "Content-Encoding" = None
    /\ h !! "Content-Length" = Some [strconv.FormatInt (Z.of_nat (length P))].
Proof.
  intros HG Hst Hce Hs Hb Hn Hr.
  destruct (HG _ _ Hn) as [t Ht].
  assert (gzip_magic body = true) as Hm by (apply gzip_magic_true; eauto).
  assert (http.Get (Response.Header resp) "Content-Encoding" = "") as Hget.
  { apply Get_absent. destruct canonical_keys as (-> & _). exact Hce. }
  rewrite (peek_gzip_branch resp body Hst Hget Hb Hm Hs), Hn. cbn [mbind option_bind].
  rewrite Hr. cbn zeta. eexists. split; [reflexivity|].
  unfold http.Set_, http.Del.
  destruct canonical_keys as (-> & -> & _).
  split.
  - rewrite lookup_insert_ne by discriminate.
    rewrite lookup_delete_ne by discriminate.
    apply lookup_delete_eq.
  - apply lookup_insert_eq.
Qed.

(** Failed decompression in the [peek] listing: the response comes back
    as it was, body bytes and headers, with a nil error. *)
Lemma peek_decompress_failure_restores `{G : gzip.Lib} (resp : Response.t)
    (body : list byte) :
  success resp ->
  http.Get (Response.Header resp) "Content-Encoding" = "" ->
  amp.isStreamingResponse resp = false ->
  Response.Body resp = io.NewReader body ->
  gzip_magic body = true ->
  gzip.NewReader body ≫= gzip.ReadAll = None ->
  amp.proxy_ModifyResponse resp = (resp, None).
Proof.
  intros Hst Hce Hs Hb Hm Hfail.
  rewrite (peek_gzip_branch resp body Hst Hce Hb Hm Hs), Hfail. reflexivity.
Qed.

(** The same in the [tee] listing, whatever the gzip reader: when the
    doubled data does not decompress, the body that goes out is longer
    than the one that came in. *)
Lemma tee_decompress_failure_lengthens `{G : gzip.Lib} (resp : Response.t)
    (body : list byte) :
  success resp ->
  http.Get (Response.Header resp) "Content-Encoding" = "" ->
  amp_tee.isStreamingResponse resp = false ->
  Response.Body resp = io.NewReader body ->
  gzip_magic body = true ->
  gzip.NewReader (body ++ drop 2 body) ≫= gzip.ReadAll = None ->
  Response.Body (amp_tee.proxy_ModifyResponse resp).1
  = io.NewReader (body ++ drop 2 body).
Proof.
  intros Hst Hce Hs Hb Hm Hfail.
  rewrite (tee_gzip_branch resp body Hst Hce Hb Hm Hs). cbn zeta.
  rewrite Hfail. reflexivity.
Qed.

(** The test vectors in the [peek] listing: the stream is decompressed,
    the truncated and the corrupted one come back as they were. *)
Example peek_test_vectors :
  amp.proxy_ModifyResponse (G := gzip_ref.gzip_ref) (mkResp 200 ∅ good)
  = (Response.mk 200 {[ "Content-Length" := ["11"] ]} (io.NewReader goodJSON) 11, None)
  /\ amp.proxy_ModifyResponse (G := gzip_ref.gzip_ref) (mkResp 200 ∅ truncated)
     = (mkResp 200 ∅ truncated, None)
  /\ amp.proxy_ModifyResponse (G := gzip_ref.gzip_ref) (mkResp 200 ∅ corrupted)
     = (mkResp 200 ∅ corrupted, None).
Proof. repeat split; vm_compute; reflexivity. Qed.

(** C2, at the input where the [tee] listing misses it.  The body is a
    gzip stream of [{"ok":true}], the status 200, no header is set.  The
    data handed to the gzip reader is the stream followed by the stream
    without its first two bytes; the reader rejects what follows the
    first member, and the body that goes out is those 60 bytes, not the
    11 bytes of the payload. *)
Theorem tee_gzip_body_not_decompressed :
  amp_tee.proxy_ModifyResponse (G := gzip_ref.gzip_ref) (mkResp 200 ∅ good)
  = (Response.mk 200 ∅ (io.NewReader (good ++ drop 2 good)) 31, None)
  /\ gzip.NewReader (Lib := gzip_ref.gzip_ref) good ≫= gzip.ReadAll = Some goodJSON
  /\ length (good ++ drop 2 good) = 60%nat
  /\ length goodJSON = 11%nat.
Proof. repeat split; vm_compute; reflexivity. Qed.

(** C4, at the inputs where the [tee] listing misses it.  The bodies are
    the magic bytes followed by [notgzip], and the first ten bytes of a
    gzip stream; status 200, no header.  What goes out is the body
    followed by the body without its first two bytes. *)
Theorem tee_corrupt_body_duplicated :
  amp_tee.proxy_ModifyResponse (G := gzip_ref.gzip_ref) (mkResp 200 ∅ corrupted)
  = (Response.mk 200 ∅ (io.NewReader (corrupted ++ drop 2 corrupted)) 9, None)
  /\ amp_tee.proxy_ModifyResponse (G := gzip_ref.gzip_ref) (mkResp 200 ∅ truncated)
     = (Response.mk 200 ∅ (io.NewReader (truncated ++ drop 2 truncated)) 10, None)
  /\ gzip.NewReader (Lib := gzip_ref.gzip_ref) corrupted ≫= gzip.ReadAll = None
  /\ gzip.NewReader (Lib := gzip_ref.gzip_ref) truncated ≫= gzip.ReadAll = None
  /\ corrupted ++ drop 2 corrupted <> corrupted
  /\ truncated ++ drop 2 truncated <> truncated.
Proof.
  repeat split; try (vm_compute; reflexivity); vm_compute; discriminate.
Qed.

(** ** The director *)

(** C5.  Let the secret source answer [key] and [err] to the request's
    context.  With no error and a key that is not empty, the request
    goes on with X-Api-Key set to the key and Authorization set to
    "Bearer " followed by the key, each as the only value of its header.
    With an error, or with an empty key, the request goes on with the
    headers the library's director left: no header is added, none is
    set to an empty value.  In both cases the request goes on. *)
Theorem credential_injection {S : Type} `{SS : amp.SecretSource S}
    (originalDirector : Request.t -> Request.t) (parsed : url.URL)
    (req : Request.t) (secretSource secretSource' : S)
    (key : string) (err : option errors.error) :
  amp.Get secretSource (Request.Context (originalDirector req))
    = ((key, err), secretSource') ->
  let out := (amp.proxy_Director originalDirector parsed req secretSource).1 in
  let r := originalDirector req in
  (err = None -> key <> "" ->
     Request.Header out
       = <["Authorization" := [("Bearer " ++ key)%string]]>
           (<["X-Api-Key" := [key]]> (Request.Header r))
     /\ Request.Header out !! "X-Api-Key" = Some [key]
     /\ Request.Header out !! "Authorization" = Some [("Bearer " ++ key)%string]
     /\ http.Get (Request.Header out) "X-Api-Key" = key
     /\ http.Get (Request.Header out) "Authorization" = ("Bearer " ++ key)%string)
  /\ (err <> None \/ key = "" ->
      out = Request.mk (Request.Method r) (Request.URL r) (url.Host parsed)
                       (Request.Header r) (Request.Context r)).
Proof.
  intros Hget out r. subst out r. unfold amp.proxy_Director.
  cbn [Request.Context Request.Header Request.Method Request.URL Request.Host].
  rewrite Hget. split.
  - intros -> Hkey.
    destruct (String.eqb_spec key ""); [contradiction|].
    cbn [negb fst Request.Header]. unfold http.Set_, http.Get.
    destruct canonical_keys as (_ & _ & _ & _ & -> & ->).
    repeat split.
    + rewrite lookup_insert_ne by discriminate. apply lookup_insert_eq.
    + apply lookup_insert_eq.
    + rewrite lookup_insert_ne by discriminate. rewrite lookup_insert_eq. reflexivity.
    + rewrite lookup_insert_eq. reflexivity.
  - intros [Herr | ->].
    + destruct err; [reflexivity | contradiction].
    + destruct err; reflexivity.
Qed.

Lemma credential_injection_witness :
  amp.Get (SecretSource := ampmodule.StaticSecretSource) "secret"
          (Request.Context (httputil.rewriteRequestURL test_upstream test_request))
    = (("secret", None), "secret")
  /\ http.Get (Request.Header (run_director "secret")) "X-Api-Key" = "secret"
  /\ http.Get (Request.Header (run_director "secret")) "Authorization"
     = "Bearer secret".
Proof.
  assert (amp.Get (SecretSource := ampmodule.StaticSecretSource) "secret"
            (Request.Context (httputil.rewriteRequestURL test_upstream test_request))
          = (("secret", None), "secret")) as Hget by reflexivity.
  split; [exact Hget|].
  pose proof (proj1 (credential_injection (SS := ampmodule.StaticSecretSource)
                       (httputil.rewriteRequestURL test_upstream) test_upstream
                       test_request "secret" "secret" "secret" None Hget)
                    eq_refl ltac:(discriminate)) as (_ & _ & _ & Hx & Ha).
  split; [exact Hx | exact Ha].
Defined.

(** The tests of the director: a static secret reaches the upstream in
    both headers, an empty one in neither. *)
Example director_tests :
  Request.Header (run_director "secret")
    = {[ "X-Api-Key" := ["secret"]; "Authorization" := ["Bearer secret"] ]}
  /\ Request.Host (run_director "secret") = "127.0.0.1:8080"
  /\ Request.Header (run_director "") = ∅.
Proof. repeat split; vm_compute; reflexivity. Qed.

(** ** Building the proxy *)

Section construction.
Context `{G : gzip.Lib} `{U : url.Lib} `{H : httputil.Lib}.
Context {S : Type} `{SS : amp.SecretSource S}.

Lemma createReverseProxy_rejected (upstreamURL : string) (e : errors.error) :
  url.Parse upstreamURL = inr e ->
  amp.createReverseProxy (S := S) upstreamURL
  = (None, Some (errors.Wrapf "invalid amp upstream url: %w" e)).
Proof. unfold amp.createReverseProxy. intros ->. reflexivity. Qed.

Lemma createReverseProxy_built (upstreamURL : string) (parsed : url.URL) :
  url.Parse upstreamURL = inl parsed ->
  amp.createReverseProxy (S := S) upstreamURL
  = (Some (amp.mkProxy (amp.proxy_Director (httputil.singleHostDirector parsed) parsed)
                       amp.proxy_ModifyResponse amp.proxy_ErrorHandler),
     None).
Proof. unfold amp.createReverseProxy. intros ->. reflexivity. Qed.

(** The second listing builds its proxy on the same condition. *)
Lemma tee_createReverseProxy_same_outcome (upstreamURL : string) :
  (amp_tee.createReverseProxy (S := S) upstreamURL).2
  = (amp.createReverseProxy (S := S) upstreamURL).2
  /\ (is_Some (amp_tee.createReverseProxy (S := S) upstreamURL).1
      <-> is_Some (amp.createReverseProxy (S := S) upstreamURL).1).
Proof.
  unfold amp_tee.createReverseProxy, amp.createReverseProxy.
  destruct (url.Parse upstreamURL); simpl; split; try reflexivity;
    split; intros _; eauto; intros [? [=]].
Qed.

(** C3 (as amended).  Building the proxy fails exactly when [url.Parse]
    rejects the address.  When it fails, there is an error, which wraps
    the parser's, and no proxy; when it does not, there is a proxy and no
    error.  A failure implies that the address is not a well-formed
    absolute URL; the converse is not promised. *)
Theorem createReverseProxy_fails_iff_unparsable (upstreamURL : string) :
  let r := amp.createReverseProxy (S := S) upstreamURL in
  (r.2 <> None <-> exists e, url.Parse upstreamURL = inr e)
  /\ (forall e, url.Parse upstreamURL = inr e ->
        r = (None, Some (errors.Wrapf "invalid amp upstream url: %w" e)))
  /\ (r.2 = None -> is_Some r.1)
  /\ (r.2 <> None -> r.1 = None /\ well_formed_absolute upstreamURL = false).
Proof.
  cbn zeta. unfold well_formed_absolute.
  destruct (url.Parse upstreamURL) as [parsed|e] eqn:E.
  - rewrite (createReverseProxy_built _ _ E). cbn [fst snd].
    repeat split; try congruence; eauto.
    all: try (intros (e & [=])).
  - rewrite (createReverseProxy_rejected _ _ E). cbn [fst snd].
    repeat split; try congruence; eauto.
    all: try (intros [=]).
Qed.

End construction.

(** C3 as stated fails.  "example.com", "/api" and the empty string are
    not absolute URLs: they parse, without a scheme.  For each of them
    the proxy is built and no error is returned.  The address of the
    test, "://invalid", is rejected. *)
Lemma relative_address_counterexample :
  Forall (fun upstreamURL =>
            well_formed_absolute (U := url_ref.url_ref) upstreamURL = false
            /\ is_Some (createReverseProxy_ref upstreamURL).1
            /\ (createReverseProxy_ref upstreamURL).2 = None)
         ["example.com"; "/api"; ""]
  /\ createReverseProxy_ref "://invalid"
     = (None, Some (errors.Wrapf "invalid amp upstream url: %w"
                      (errors.URLError "parse" "://invalid"
                         (errors.New "missing protocol scheme")))).
Proof.
  split.
  - repeat constructor; try reflexivity;
      unfold createReverseProxy_ref, amp.createReverseProxy;
      match goal with
      | |- is_Some ?x =>
          match x with
          | context [url.Parse ?s] =>
              let p := eval vm_compute in (url.Parse (Lib := url_ref.url_ref) s) in
              change (url.Parse (Lib := url_ref.url_ref) s) with p
          end
      end; cbn [fst]; eauto.
  - reflexivity.
Qed.

(** ** Registration *)

(** One goal for each white-space rune [w] may be, closed by [tac]. *)
Ltac each_space Hw tac :=
  unfold strings.spaces in Hw; cbn [map app string_of_list_ascii] in Hw;
  repeat (apply elem_of_cons in Hw as [-> | Hw]);
  first [ apply elem_of_nil in Hw; contradiction | tac ].

Lemma leading_space_found (w rest : string) :
  w ∈ strings.spaces ->
  exists k, strings.leading_space (w ++ rest) = Some (S k)
            /\ strings.drop_str (S k) (w ++ rest) = rest.
Proof.
  intros Hw.
  each_space Hw
    ltac:(eexists; split; [destruct rest; vm_compute; reflexivity | reflexivity]).
Qed.

Lemma TrimLeft_whitespace (ws : list string) (fuel : nat) :
  Forall (fun w => w ∈ strings.spaces) ws ->
  (length ws <= fuel)%nat ->
  strings.TrimLeft fuel (foldr String.append "" ws) = "".
Proof.
  intros Hws. revert fuel. induction Hws as [|w ws Hw _ IH]; intros fuel Hfuel.
  - destruct fuel; reflexivity.
  - destruct fuel as [|fuel]; [simpl in Hfuel; lia|].
    cbn [foldr strings.TrimLeft].
    destruct (leading_space_found w (foldr String.append "" ws) Hw) as (k & -> & ->).
    apply IH. simpl in Hfuel. lia.
Qed.

Lemma string_length_app (a b : string) :
  String.length (a ++ b)%string = (String.length a + String.length b)%nat.
Proof.
  induction a as [|c a IH]; [reflexivity|].
  change (S (String.length (a ++ b)%string) = S (String.length a + String.length b)).
  rewrite IH. reflexivity.
Qed.

Lemma whitespace_length (ws : list string) :
  Forall (fun w => w ∈ strings.spaces) ws ->
  (length ws <= String.length (foldr String.append "" ws))%nat.
Proof.
  induction 1 as [|w ws Hw _ IH]; [reflexivity|].
  cbn [foldr length]. rewrite string_length_app.
  assert (1 <= String.length w)%nat; [|lia].
  each_space Hw ltac:(simpl; lia).
Qed.

(** A string of white space only is trimmed to the empty string. *)
Lemma TrimSpace_whitespace_only (s : string) :
  whitespace_only s -> strings.TrimSpace s = "".
Proof.
  intros (ws & Hws & ->). unfold strings.TrimSpace.
  rewrite (TrimLeft_whitespace ws _ Hws (whitespace_length ws Hws)).
  reflexivity.
Qed.

Lemma string_app_assoc (a b c : string) :
  ((a ++ b) ++ c)%string = (a ++ b ++ c)%string.
Proof.
  induction a as [|x a IH]; [reflexivity|].
  change (String x ((a ++ b) ++ c)%string = String x (a ++ b ++ c)%string).
  rewrite IH. reflexivity.
Qed.

Lemma string_app_empty (a : string) : (a ++ "")%string = a.
Proof.
  induction a as [|x a IH]; [reflexivity|].
  change (String x (a ++ "")%string = String x a). rewrite IH. reflexivity.
Qed.

Lemma foldr_string_app (xs ys : list string) :
  foldr String.append "" (xs ++ ys)
  = (foldr String.append "" xs ++ foldr String.append "" ys)%string.
Proof.
  induction xs as [|x xs IH]; [reflexivity|].
  cbn [app foldr]. rewrite IH, string_app_assoc. reflexivity.
Qed.

Lemma list_ascii_app (a b : string) :
  list_ascii_of_string (a ++ b)%string
  = list_ascii_of_string a ++ list_ascii_of_string b.
Proof.
  induction a as [|x a IH]; [reflexivity|].
  change (x :: list_ascii_of_string (a ++ b)%string
          = x :: (list_ascii_of_string a ++ list_ascii_of_string b)).
  rewrite IH. reflexivity.
Qed.

Lemma string_of_list_app (x y : list ascii) :
  string_of_list_ascii (x ++ y)
  = (string_of_list_ascii x ++ string_of_list_ascii y)%string.
Proof.
  induction x as [|c x IH]; [reflexivity|].
  change (String c (string_of_list_ascii (x ++ y))
          = String c (string_of_list_ascii x ++ string_of_list_ascii y)%string).
  rewrite IH. reflexivity.
Qed.

Lemma rev_str_app (a b : string) :
  strings.rev_str (a ++ b)%string = (strings.rev_str b ++ strings.rev_str a)%string.
Proof.
  unfold strings.rev_str.
  rewrite list_ascii_app, rev_app_distr, string_of_list_app. reflexivity.
Qed.

Lemma rev_str_involutive (s : string) : strings.rev_str (strings.rev_str s) = s.
Proof.
  unfold strings.rev_str.
  rewrite list_ascii_of_string_of_list_ascii, rev_involutive.
  apply string_of_list_ascii_of_string.
Qed.

Lemma prefix_split (w s : string) :
  String.prefix w s = true -> exists rest, s = (w ++ rest)%string.
Proof.
  revert s. induction w as [|c w IH]; intros s Hp.
  - exists s. reflexivity.
  - destruct s as [|d s]; [discriminate|]. simpl in Hp.
    destruct (ascii_dec c d) as [->|]; [|discriminate].
    destruct (IH s Hp) as [rest ->]. exists rest. reflexivity.
Qed.

(** When a white-space rune is found at the head, it is one of the list,
    and it is what is dropped. *)
Lemma leading_space_split (s : string) (n : nat) :
  strings.leading_space s = Some n ->
  exists w rest, w ∈ strings.spaces /\ s = (w ++ rest)%string
                 /\ strings.drop_str n s = rest.
Proof.
  unfold strings.leading_space.
  destruct (filter _ strings.spaces) as [|w l] eqn:Ef; [discriminate|].
  intros [= <-].
  assert (w ∈ filter (fun w => bool_decide (strings.HasPrefix s w = true))
                     strings.spaces) as Hin by (rewrite Ef; left).
  apply list_elem_of_filter in Hin as [Hp Hw].
  apply bool_decide_unpack in Hp. apply prefix_split in Hp as [rest ->].
  exists w, rest. split; [exact Hw|]. split; [reflexivity|].
  clear -Hw. each_space Hw ltac:(reflexivity).
Qed.

Lemma trailing_space_split (r : string) (n : nat) :
  strings.trailing_space r = Some n ->
  exists w rest, w ∈ strings.spaces /\ r = (strings.rev_str w ++ rest)%string
                 /\ strings.drop_str n r = rest.
Proof.
  unfold strings.trailing_space.
  destruct (filter _ strings.spaces) as [|w l] eqn:Ef; [discriminate|].
  intros [= <-].
  assert (w ∈ filter (fun w => bool_decide
                                 (strings.HasPrefix r (strings.rev_str w) = true))
                     strings.spaces) as Hin by (rewrite Ef; left).
  apply list_elem_of_filter in Hin as [Hp Hw].
  apply bool_decide_unpack in Hp. apply prefix_split in Hp as [rest ->].
  exists w, rest. split; [exact Hw|]. split; [reflexivity|].
  clear -Hw. each_space Hw ltac:(reflexivity).
Qed.

(** What [TrimLeft] removes is white space, whatever the fuel. *)
Lemma TrimLeft_removes_whitespace (fuel : nat) (s : string) :
  exists ws, Forall (fun w => w ∈ strings.spaces) ws
             /\ s = (foldr String.append "" ws ++ strings.TrimLeft fuel s)%string.
Proof.
  revert s. induction fuel as [|fuel IH]; intros s.
  - exists []. split; [constructor | reflexivity].
  - cbn [strings.TrimLeft].
    destruct (strings.leading_space s) as [[|k]|] eqn:El;
      try (exists []; split; [constructor | reflexivity]).
    destruct (leading_space_split _ _ El) as (w & rest & Hw & -> & ->).
    destruct (IH rest) as (ws & Hws & Hrest).
    exists (w :: ws). split; [constructor; assumption|].
    cbn [foldr]. rewrite string_app_assoc, <- Hrest. reflexivity.
Qed.

Lemma TrimRight_removes_whitespace (fuel : nat) (r : string) :
  exists ws, Forall (fun w => w ∈ strings.spaces) ws
             /\ r = (strings.rev_str (foldr String.append "" ws)
                     ++ strings.TrimRight_rev fuel r)%string.
Proof.
  revert r. induction fuel as [|fuel IH]; intros r.
  - exists []. split; [constructor | reflexivity].
  - cbn [strings.TrimRight_rev].
    destruct (strings.trailing_space r) as [[|k]|] eqn:El;
      try (exists []; split; [constructor | reflexivity]).
    destruct (trailing_space_split _ _ El) as (w & rest & Hw & -> & ->).
    destruct (IH rest) as (ws & Hws & Hrest).
    exists (ws ++ [w]).
    split; [apply Forall_app; split; [assumption | constructor; [assumption | constructor]]|].
    rewrite foldr_string_app, rev_str_app. cbn [foldr].
    rewrite string_app_empty, string_app_assoc, <- Hrest. reflexivity.
Qed.

Lemma space_not_empty (w : string) :
  w ∈ strings.spaces -> (1 <= String.length w)%nat.
Proof.
  intros Hw.
  assert (Forall (fun w => w ∈ strings.spaces) [w]) as Hall
    by (constructor; [exact Hw | constructor]).
  pose proof (whitespace_length [w] Hall) as H.
  cbn [foldr length] in H. rewrite string_app_empty in H. exact H.
Qed.

(** The fuel is enough: no white space is left at the head. *)
Lemma TrimLeft_trimmed (fuel : nat) (s : string) :
  (String.length s <= fuel)%nat ->
  strings.leading_space (strings.TrimLeft fuel s) = None.
Proof.
  revert s. induction fuel as [|fuel IH]; intros s Hlen.
  - destruct s; [reflexivity | simpl in Hlen; lia].
  - cbn [strings.TrimLeft].
    destruct (strings.leading_space s) as [n|] eqn:El; [|exact El].
    destruct (leading_space_split _ _ El) as (w & rest & Hw & -> & Hd).
    destruct (leading_space_found w rest Hw) as (k & Hk & _).
    rewrite Hk in El. injection El as <-. rewrite Hd.
    apply IH. rewrite string_length_app in Hlen.
    pose proof (space_not_empty w Hw). lia.
Qed.

Lemma rev_str_length (s : string) : String.length (strings.rev_str s) = String.length s.
Proof.
  induction s as [|c s IH]; [reflexivity|].
  change (String c s) with (String c "" ++ s)%string.
  rewrite rev_str_app, !string_length_app, IH. simpl. lia.
Qed.

Lemma TrimRight_trimmed (fuel : nat) (r : string) :
  (String.length r <= fuel)%nat ->
  strings.trailing_space (strings.TrimRight_rev fuel r) = None.
Proof.
  revert r. induction fuel as [|fuel IH]; intros r Hlen.
  - destruct r; [reflexivity | simpl in Hlen; lia].
  - cbn [strings.TrimRight_rev].
    destruct (strings.trailing_space r) as [[|k]|] eqn:El; [| |exact El].
    + destruct (trailing_space_split _ _ El) as (w & rest & Hw & Hr & Hd).
      pose proof (space_not_empty w Hw) as Hone.
      unfold strings.trailing_space in El.
      destruct (filter _ strings.spaces) as [|w' l] eqn:Ef; [discriminate|].
      injection El as El.
      assert (w' ∈ filter (fun w => bool_decide
                                      (strings.HasPrefix r (strings.rev_str w) = true))
                          strings.spaces) as Hin by (rewrite Ef; left).
      apply list_elem_of_filter in Hin as [_ Hw'].
      pose proof (space_not_empty w' Hw'). lia.
    + destruct (trailing_space_split _ _ El) as (w & rest & Hw & -> & ->).
      apply IH. rewrite string_length_app, rev_str_length in Hlen.
      pose proof (space_not_empty w Hw). lia.
Qed.

(** [TrimSpace] leaves no white space at either end. *)
Lemma TrimSpace_trimmed (s : string) :
  strings.leading_space (strings.TrimSpace s) = None
  /\ strings.trailing_space (strings.rev_str (strings.TrimSpace s)) = None.
Proof.
  unfold strings.TrimSpace. cbv zeta.
  set (l := strings.TrimLeft (String.length s) s).
  assert (strings.leading_space l = None) as Hl
    by (apply TrimLeft_trimmed; reflexivity).
  assert (strings.trailing_space
            (strings.TrimRight_rev (String.length l) (strings.rev_str l)) = None) as Hr
    by (apply TrimRight_trimmed; rewrite rev_str_length; reflexivity).
  split; [|rewrite rev_str_involutive; exact Hr].
  destruct (TrimRight_removes_whitespace (String.length l) (strings.rev_str l))
    as (ws & _ & E).
  apply (f_equal strings.rev_str) in E. rewrite rev_str_involutive, rev_str_app in E.
  destruct (strings.leading_space (strings.rev_str _)) as [n|] eqn:El; [|reflexivity].
  destruct (leading_space_split _ _ El) as (w & rest & Hw & Hs & _).
  rewrite Hs, string_app_assoc in E.
  destruct (leading_space_found w (rest ++ strings.rev_str
              (strings.rev_str (foldr String.append "" ws)))%string Hw) as (k & Hk & _).
  rewrite <- E, Hl in Hk. discriminate.
Qed.

(** Only a string of white space is trimmed to the empty string. *)
Lemma TrimSpace_empty_whitespace_only (s : string) :
  strings.TrimSpace s = "" -> whitespace_only s.
Proof.
  unfold strings.TrimSpace. cbv zeta.
  destruct (TrimLeft_removes_whitespace (String.length s) s) as (ws1 & H1 & E1).
  set (l := strings.TrimLeft (String.length s) s) in *.
  destruct (TrimRight_removes_whitespace (String.length l) (strings.rev_str l))
    as (ws2 & H2 & E2).
  intros Hempty.
  apply (f_equal strings.rev_str) in Hempty. rewrite rev_str_involutive in Hempty.
  change (strings.rev_str "") with "" in Hempty.
  rewrite Hempty, string_app_empty in E2.
  apply (f_equal strings.rev_str) in E2. rewrite !rev_str_involutive in E2.
  exists (ws1 ++ ws2). split; [apply Forall_app; split; assumption|].
  rewrite foldr_string_app, <- E2. exact E1.
Qed.

Lemma TrimSpace_empty_iff (s : string) :
  strings.TrimSpace s = "" <-> whitespace_only s.
Proof.
  split; [apply TrimSpace_empty_whitespace_only | apply TrimSpace_whitespace_only].
Qed.

Section registration.
Context `{G : gzip.Lib} `{U : url.Lib} `{H : httputil.Lib}.
Context {S : Type} `{MS : ampmodule.MultiSource S}.
Variable m : ampmodule.AmpModule S.
Variable engine : gin.Engine.
Variable cfg : config.Config.

Lemma Register_unconfigured :
  strings.TrimSpace (config.AmpUpstreamURL cfg) = "" ->
  ampmodule.Register m engine cfg
  = (ampmodule.mkModule (ampmodule.secretSource m) (ampmodule.proxy m)
                        (ampmodule.authMiddleware_ m) false, engine, None).
Proof. unfold ampmodule.Register. intros ->. reflexivity. Qed.

Lemma Register_rejected (e : errors.error) :
  strings.TrimSpace (config.AmpUpstreamURL cfg) <> "" ->
  url.Parse (strings.TrimSpace (config.AmpUpstreamURL cfg)) = inr e ->
  ampmodule.Register m engine cfg
  = (ampmodule.mkModule
       (Some (ampmodule.NewMultiSourceSecret (config.AmpUpstreamAPIKey cfg) 0))
       (ampmodule.proxy m) (ampmodule.authMiddleware_ m) (ampmodule.enabled m),
     engine,
     Some (errors.Wrapf "failed to create amp proxy: %w"
             (errors.Wrapf "invalid amp upstream url: %w" e))).
Proof.
  intros Hne Hp. unfold ampmodule.Register.
  destruct (String.eqb_spec (strings.TrimSpace (config.AmpUpstreamURL cfg)) "");
    [contradiction|].
  rewrite (createReverseProxy_rejected _ _ Hp). reflexivity.
Qed.

Lemma Register_built (parsed : url.URL) :
  strings.TrimSpace (config.AmpUpstreamURL cfg) <> "" ->
  url.Parse (strings.TrimSpace (config.AmpUpstreamURL cfg)) = inl parsed ->
  ampmodule.Register m engine cfg
  = (ampmodule.mkModule
       (Some (ampmodule.NewMultiSourceSecret (config.AmpUpstreamAPIKey cfg) 0))
       (Some (amp.mkProxy
                (amp.proxy_Director (httputil.singleHostDirector parsed) parsed)
                amp.proxy_ModifyResponse amp.proxy_ErrorHandler))
       (ampmodule.authMiddleware_ m) true,
     (engine ++ ampmodule.managementRoutes)
       ++ ampmodule.providerAliases (ampmodule.authMiddleware m),
     None).
Proof.
  intros Hne Hp. unfold ampmodule.Register.
  destruct (String.eqb_spec (strings.TrimSpace (config.AmpUpstreamURL cfg)) "");
    [contradiction|].
  rewrite (createReverseProxy_built _ _ Hp). reflexivity.
Qed.


End registration.


(** ** Endpoint override *)

Lemma endpointListContains_elem (items : list string) (value : string) :
  openai.endpointListContains items value = true <-> value ∈ items.
Proof.
  induction items as [|item items IH]; simpl.
  - split; [discriminate | intros Hin; apply elem_of_nil in Hin; contradiction].
  - rewrite elem_of_cons.
    destruct (String.eqb_spec item value) as [->|Hne].
    + split; [left; reflexivity | reflexivity].
    + rewrite IH. split; [right; assumption | intros [-> | Hin]; [contradiction | assumption]].
Qed.

Lemma endpointListContains_not_elem (items : list string) (value : string) :
  openai.endpointListContains items value = false <-> value ∉ items.
Proof.
  rewrite <- endpointListContains_elem.
  destruct (openai.endpointListContains items value); split; congruence.
Qed.

(** The mapping of the specification determines its answer. *)
Lemma mapping_functional (supported : list string) (requested : string)
    (d1 d2 : string * bool) :
  openai.mapping supported requested d1 ->
  openai.mapping supported requested d2 -> d1 = d2.
Proof.
  intros H1 H2.
  destruct H1; destruct H2; subst; try reflexivity; try contradiction;
    try discriminate; exfalso; eauto.
Qed.

Section override.
Context `{R : registry.Registry} `{T : thinking.Lib}.

(** What the resolver answers once the descriptor is known. *)
Lemma resolveEndpointOverride_resolved (modelName requested : string)
    (info : registry.ModelInfo) :
  modelName <> "" ->
  (openai.lookupInfo modelName).1 = Some info ->
  openai.resolveEndpointOverride modelName requested =
    let supported := registry.SupportedEndpoints info in
    if openai.endpointListContains supported requested then ("", false)
    else if String.eqb requested "/chat/completions"
            && openai.endpointListContains supported "/responses"
    then ("/responses", true)
    else if String.eqb requested "/responses"
            && openai.endpointListContains supported "/chat/completions"
    then ("/chat/completions", true)
    else ("", false).
Proof.
  intros Hne Hinfo. unfold openai.resolveEndpointOverride.
  destruct (String.eqb_spec modelName ""); [contradiction|].
  rewrite Hinfo. cbn zeta.
  destruct (registry.SupportedEndpoints info) as [|e es] eqn:Es; [|reflexivity].
  simpl. rewrite !andb_false_r. reflexivity.
Qed.

Lemma resolveEndpointOverride_unresolved (modelName requested : string) :
  modelName = "" \/ (openai.lookupInfo modelName).1 = None ->
  openai.resolveEndpointOverride modelName requested = ("", false).
Proof.
  unfold openai.resolveEndpointOverride. intros [-> | Hnone].
  - reflexivity.
  - rewrite Hnone. destruct (String.eqb modelName ""); reflexivity.
Qed.

(** The answer for a model that resolves to a descriptor is the one the
    mapping of the specification gives for the descriptor's list. *)
Lemma resolveEndpointOverride_mapped (modelName requested : string)
    (info : registry.ModelInfo) :
  modelName <> "" ->
  (openai.lookupInfo modelName).1 = Some info ->
  openai.mapping (registry.SupportedEndpoints info) requested
                 (openai.resolveEndpointOverride modelName requested).
Proof.
  intros Hne Hinfo.
  rewrite (resolveEndpointOverride_resolved _ _ _ Hne Hinfo). cbn zeta.
  destruct (openai.endpointListContains _ requested) eqn:Ereq.
  { apply openai.pass_through. apply endpointListContains_elem. exact Ereq. }
  apply endpointListContains_not_elem in Ereq.
  destruct (String.eqb_spec requested "/chat/completions") as [Hc|Hc]; simpl.
  { destruct (openai.endpointListContains _ "/responses") eqn:Er.
    - apply openai.chat_to_responses; try assumption.
      apply endpointListContains_elem. exact Er.
    - apply endpointListContains_not_elem in Er.
      destruct (String.eqb_spec requested "/responses") as [Hr|Hr]; simpl;
        [rewrite Hr in Hc; discriminate|].
      apply openai.other_mismatch; try assumption.
      + intros [_ Hin]. contradiction.
      + intros [Hr' _]. contradiction. }
  destruct (String.eqb_spec requested "/responses") as [Hr|Hr]; simpl.
  { destruct (openai.endpointListContains _ "/chat/completions") eqn:Ech.
    - apply openai.responses_to_chat; try assumption.
      apply endpointListContains_elem. exact Ech.
    - apply endpointListContains_not_elem in Ech.
      apply openai.other_mismatch; try assumption.
      + intros [Hc' _]. contradiction.
      + intros [_ Hin]. contradiction. }
  apply openai.other_mismatch; try assumption.
  - intros [Hc' _]. contradiction.
  - intros [Hr' _]. contradiction.
Qed.

(** C6.  For a model that resolves to a descriptor, the answer of
    [resolveEndpointOverride] is the one the two-way mapping of the
    specification gives for the descriptor's supported endpoints, and the
    only one: no override when the requested endpoint is supported;
    "/responses" for "/chat/completions" and "/chat/completions" for
    "/responses" when the other one is supported; no override for any
    other mismatch. *)
Theorem resolveEndpointOverride_mapping (modelName requested : string)
    (info : registry.ModelInfo) :
  modelName <> "" ->
  (openai.lookupInfo modelName).1 = Some info ->
  openai.mapping (registry.SupportedEndpoints info) requested
                 (openai.resolveEndpointOverride modelName requested)
  /\ forall d, openai.mapping (registry.SupportedEndpoints info) requested d ->
               d = openai.resolveEndpointOverride modelName requested.
Proof.
  intros Hne Hinfo.
  pose proof (resolveEndpointOverride_mapped modelName requested info Hne Hinfo)
    as Hm.
  split; [exact Hm|].
  intros d Hd. exact (mapping_functional _ _ _ _ Hd Hm).
Qed.

(** C7.  When the registry does not know the identifier as it is written
    and [ParseSuffix] gives a base identifier that is neither empty nor
    the identifier itself, the registry is asked twice in all, for the
    identifier and then for the base, and the descriptor is the base's.
    If the base has a descriptor, the answer for the suffixed identifier
    is the answer for the base, and it is the one, and the only one, that
    the mapping of the specification gives for the base's supported
    endpoints.  If the base has none, there is no override.  An empty
    model name gives no override. *)
Theorem resolveEndpointOverride_suffix_retry
    (modelName baseModel requested : string) :
  modelName <> "" ->
  registry.GetModelInfo modelName "" = None ->
  thinking.ModelName (thinking.ParseSuffix modelName) = baseModel ->
  baseModel <> "" ->
  baseModel <> modelName ->
  openai.lookupInfo modelName
    = (registry.GetModelInfo baseModel "", [modelName; baseModel])
  /\ (forall info, registry.GetModelInfo baseModel "" = Some info ->
        openai.resolveEndpointOverride modelName requested
        = openai.resolveEndpointOverride baseModel requested
        /\ openai.mapping (registry.SupportedEndpoints info) requested
             (openai.resolveEndpointOverride modelName requested)
        /\ (forall d, openai.mapping (registry.SupportedEndpoints info) requested d ->
              d = openai.resolveEndpointOverride modelName requested))
  /\ (registry.GetModelInfo baseModel "" = None ->
        openai.resolveEndpointOverride modelName requested = ("", false))
  /\ openai.resolveEndpointOverride "" requested = ("", false).
Proof.
  intros Hne Hmiss Hparse Hbase Hdiff.
  assert (openai.lookupInfo modelName
          = (registry.GetModelInfo baseModel "", [modelName; baseModel])) as Hl.
  { unfold openai.lookupInfo. rewrite Hmiss, Hparse.
    destruct (String.eqb_spec baseModel ""); [contradiction|].
    destruct (String.eqb_spec baseModel modelName); [contradiction|].
    reflexivity. }
  split; [exact Hl|]. split; [|split; [|reflexivity]].
  - intros info Hinfo.
    assert ((openai.lookupInfo modelName).1 = Some info) as Hvia
      by (rewrite Hl; exact Hinfo).
    pose proof (resolveEndpointOverride_mapped modelName requested info Hne Hvia)
      as Hm.
    split; [|split; [exact Hm|]].
    + rewrite (resolveEndpointOverride_resolved modelName requested info Hne Hvia).
      rewrite (resolveEndpointOverride_resolved baseModel requested info Hbase);
        [reflexivity|].
      unfold openai.lookupInfo. rewrite Hinfo. reflexivity.
    + intros d Hd. exact (mapping_functional _ _ _ _ Hd Hm).
  - intros Hnone. apply resolveEndpointOverride_unresolved. right.
    rewrite Hl. exact Hnone.
Qed.

(** The registry is asked once or twice, first for the identifier as it
    is written. *)
Lemma lookupInfo_at_most_one_retry (modelName : string) :
  (openai.lookupInfo modelName).2 = [modelName]
  \/ exists baseModel, (openai.lookupInfo modelName).2 = [modelName; baseModel].
Proof.
  unfold openai.lookupInfo.
  destruct (registry.GetModelInfo modelName ""); [left; reflexivity|].
  destruct (negb _ && negb _); [right; eexists; reflexivity | left; reflexivity].
Qed.

(** C10.  The answer is either ("", false), or (e, true) where e is
    "/chat/completions" or "/responses", is not the requested endpoint,
    and is in the supported list of the descriptor the model resolves
    to.  A non-empty endpoint never comes with [false]. *)
Theorem resolveEndpointOverride_invariant (modelName requested : string) :
  let r := openai.resolveEndpointOverride modelName requested in
  (r = ("", false)
   \/ (r.2 = true
       /\ (r.1 = "/chat/completions" \/ r.1 = "/responses")
       /\ r.1 <> requested
       /\ exists info, (openai.lookupInfo modelName).1 = Some info
                       /\ r.1 ∈ registry.SupportedEndpoints info))
  /\ (r.2 = false -> r.1 = "").
Proof.
  cbn zeta.
  assert (openai.resolveEndpointOverride modelName requested = ("", false)
          \/ (openai.resolveEndpointOverride modelName requested).2 = true
             /\ ((openai.resolveEndpointOverride modelName requested).1 = "/chat/completions"
                 \/ (openai.resolveEndpointOverride modelName requested).1 = "/responses")
             /\ (openai.resolveEndpointOverride modelName requested).1 <> requested
             /\ exists info, (openai.lookupInfo modelName).1 = Some info
                  /\ (openai.resolveEndpointOverride modelName requested).1
                     ∈ registry.SupportedEndpoints info) as Hinv.
  { destruct (String.eqb_spec modelName "") as [->|Hne]; [left; reflexivity|].
    destruct ((openai.lookupInfo modelName).1) as [info|] eqn:Hinfo.
    2:{ left. apply resolveEndpointOverride_unresolved. right. exact Hinfo. }
    rewrite (resolveEndpointOverride_resolved _ _ _ Hne Hinfo). cbn zeta.
    destruct (openai.endpointListContains _ requested) eqn:Ereq; [left; reflexivity|].
    apply endpointListContains_not_elem in Ereq.
    destruct (String.eqb_spec requested "/chat/completions") as [Hc|Hc]; simpl.
    { destruct (openai.endpointListContains _ "/responses") eqn:Er.
      - right. cbn [fst snd]. repeat split; eauto.
        + rewrite Hc. discriminate.
        + exists info. split; [reflexivity|]. apply endpointListContains_elem. exact Er.
      - destruct (String.eqb_spec requested "/responses") as [Hr|Hr]; simpl;
          [rewrite Hr in Hc; discriminate | left; reflexivity]. }
    destruct (String.eqb_spec requested "/responses") as [Hr|Hr]; simpl;
      [|left; reflexivity].
    destruct (openai.endpointListContains _ "/chat/completions") eqn:Ech;
      [|left; reflexivity].
    right. cbn [fst snd]. repeat split; eauto.
    exists info. split; [reflexivity|]. apply endpointListContains_elem. exact Ech. }
  split; [exact Hinv|].
  destruct Hinv as [-> | (Ht & _)]; [reflexivity|].
  rewrite Ht. discriminate.
Qed.

End override.

Lemma resolveEndpointOverride_mapping_witness :
  "test-gemini-chat-only" <> ""
  /\ (openai.lookupInfo (R := test_registry) (T := thinking.parens)
        "test-gemini-chat-only").1
     = Some (registry.mkModelInfo "test-gemini-chat-only" ["/chat/completions"])
  /\ openai.mapping ["/chat/completions"] "/responses"
       (openai.resolveEndpointOverride (R := test_registry) (T := thinking.parens)
          "test-gemini-chat-only" "/responses").
Proof.
  assert ("test-gemini-chat-only" <> "") as H1 by discriminate.
  assert ((openai.lookupInfo (R := test_registry) (T := thinking.parens)
             "test-gemini-chat-only").1
          = Some (registry.mkModelInfo "test-gemini-chat-only" ["/chat/completions"]))
    as H2 by (vm_compute; reflexivity).
  refine (conj H1 (conj H2 _)).
  exact (proj1 (resolveEndpointOverride_mapping (R := test_registry)
                  (T := thinking.parens) "test-gemini-chat-only" "/responses" _ H1 H2)).
Defined.

Lemma resolveEndpointOverride_suffix_retry_witness :
  "test-gemini-chat-only(high)" <> ""
  /\ registry.GetModelInfo (Registry := test_registry)
       "test-gemini-chat-only(high)" "" = None
  /\ thinking.ModelName
       (thinking.ParseSuffix (Lib := thinking.parens) "test-gemini-chat-only(high)")
     = "test-gemini-chat-only"
  /\ "test-gemini-chat-only" <> ""
  /\ "test-gemini-chat-only" <> "test-gemini-chat-only(high)"
  /\ openai.lookupInfo (R := test_registry) (T := thinking.parens)
       "test-gemini-chat-only(high)"
     = (registry.GetModelInfo (Registry := test_registry) "test-gemini-chat-only" "",
        ["test-gemini-chat-only(high)"; "test-gemini-chat-only"])
  /\ openai.resolveEndpointOverride (R := test_registry) (T := thinking.parens)
       "test-gemini-chat-only(high)" "/responses"
     = ("/chat/completions", true).
Proof.
  assert ("test-gemini-chat-only(high)" <> "") as H1 by discriminate.
  assert (registry.GetModelInfo (Registry := test_registry)
            "test-gemini-chat-only(high)" "" = None) as H2 by (vm_compute; reflexivity).
  assert (thinking.ModelName
            (thinking.ParseSuffix (Lib := thinking.parens) "test-gemini-chat-only(high)")
          = "test-gemini-chat-only") as H3 by (vm_compute; reflexivity).
  assert ("test-gemini-chat-only" <> "") as H4 by discriminate.
  assert ("test-gemini-chat-only" <> "test-gemini-chat-only(high)") as H5 by discriminate.
  assert (registry.GetModelInfo (Registry := test_registry) "test-gemini-chat-only" ""
          = Some (registry.mkModelInfo "test-gemini-chat-only" ["/chat/completions"]))
    as Hinfo by (vm_compute; reflexivity).
  assert ("/responses" ∉ ["/chat/completions"]) as Hout
    by (intros Hin; apply list_elem_of_singleton in Hin; discriminate Hin).
  assert ("/chat/completions" ∈ ["/chat/completions"]) as Hin
    by (apply list_elem_of_singleton; reflexivity).
  pose proof (resolveEndpointOverride_suffix_retry (R := test_registry)
                (T := thinking.parens) "test-gemini-chat-only(high)"
                "test-gemini-chat-only" "/responses" H1 H2 H3 H4 H5)
    as (Hl & Hbase & _).
  destruct (Hbase _ Hinfo) as (_ & _ & Honly).
  refine (conj H1 (conj H2 (conj H3 (conj H4 (conj H5 (conj Hl _)))))).
  symmetry. apply Honly.
  exact (openai.responses_to_chat ["/chat/completions"] "/responses"
           Hout eq_refl Hin).
Defined.

(** The test of endpoint_compat_test.go, and the two cases the
    specification lists for a chat-only model. *)
Example endpoint_compat_tests :
  openai.resolveEndpointOverride (R := test_registry) (T := thinking.parens)
    "test-gemini-chat-only(high)" "/responses" = ("/chat/completions", true)
  /\ openai.resolveEndpointOverride (R := test_registry) (T := thinking.parens)
       "test-gemini-chat-only" "/responses" = ("/chat/completions", true)
  /\ openai.resolveEndpointOverride (R := test_registry) (T := thinking.parens)
       "test-gemini-chat-only" "/chat/completions" = ("", false).
Proof. repeat split; vm_compute; reflexivity. Qed.


(* ===================================================================== *)
(** * Further properties of the code *)
(* ===================================================================== *)

(** ** The response normalizer *)

(** X1.  A response with a status outside [200, 300), or with a
    Content-Encoding whose first value is not empty, comes back from
    either listing as it went in, with a nil error. *)
Theorem out_of_scope_response_untouched `{G : gzip.Lib}
    (l : listing) (resp : Response.t) :
  ~ success resp \/ http.Get (Response.Header resp) "Content-Encoding" <> "" ->
  ModifyResponse_of l resp = (resp, None).
Proof. apply labelled_or_failed_untouched. Qed.

Lemma out_of_scope_response_untouched_witness :
  (~ success (mkResp 404 ∅ good)
   \/ http.Get (Response.Header (mkResp 404 ∅ good)) "Content-Encoding" <> "")
  /\ ModifyResponse_of (G := gzip_ref.gzip_ref) peek (mkResp 404 ∅ good)
     = (mkResp 404 ∅ good, None).
Proof.
  assert (~ success (mkResp 404 ∅ good)
          \/ http.Get (Response.Header (mkResp 404 ∅ good)) "Content-Encoding" <> "")
    as H by (left; unfold success; simpl; lia).
  split; [exact H|].
  exact (out_of_scope_response_untouched (G := gzip_ref.gzip_ref) peek _ H).
Defined.

Lemma decompressed_headers_other (h : http.Header) (len : Z) (k : string) :
  k <> "Content-Encoding" -> k <> "Content-Length" ->
  decompressed_headers h len !! k = h !! k.
Proof.
  intros H1 H2. unfold decompressed_headers, http.Set_, http.Del.
  destruct canonical_keys as (-> & -> & _).
  rewrite lookup_insert_ne by congruence.
  rewrite !lookup_delete_ne by congruence. reflexivity.
Qed.

Lemma Del_encoding_other (h : http.Header) (k : string) :
  k <> "Content-Encoding" -> http.Del h "Content-Encoding" !! k = h !! k.
Proof.
  intros H1. unfold http.Del. destruct canonical_keys as (-> & _).
  rewrite lookup_delete_ne by congruence. reflexivity.
Qed.

(** X2.  Whatever the response and whatever the gzip reader does,
    neither listing returns an error, changes the status code, or touches
    a header other than Content-Encoding and Content-Length. *)
Theorem ModifyResponse_never_fails `{G : gzip.Lib} (l : listing) (resp : Response.t) :
  (ModifyResponse_of l resp).2 = None
  /\ Response.StatusCode (ModifyResponse_of l resp).1 = Response.StatusCode resp
  /\ forall k, k <> "Content-Encoding" -> k <> "Content-Length" ->
       Response.Header (ModifyResponse_of l resp).1 !! k = Response.Header resp !! k.
Proof.
  assert (forall out : Response.t,
            out = resp \/ (exists b, out = amp.with_Body resp b)
            \/ (exists d len,
                  out = Response.mk (Response.StatusCode resp)
                          (decompressed_headers (Response.Header resp) len) d len)
            \/ (exists d len,
                  out = Response.mk (Response.StatusCode resp)
                          (http.Del (Response.Header resp) "Content-Encoding") d len) ->
            Response.StatusCode out = Response.StatusCode resp
            /\ forall k, k <> "Content-Encoding" -> k <> "Content-Length" ->
                 Response.Header out !! k = Response.Header resp !! k) as Hshape.
  { intros out [-> | [(b & ->) | [(d & len & ->) | (d & len & ->)]]];
      (split; [reflexivity|]); intros k H1 H2; cbn [Response.Header amp.with_Body];
      first [ reflexivity
            | apply (decompressed_headers_other _ _ _ H1 H2)
            | apply (Del_encoding_other _ _ H1) ]. }
  assert ((ModifyResponse_of l resp).2 = None
          /\ ((ModifyResponse_of l resp).1 = resp
              \/ (exists b, (ModifyResponse_of l resp).1 = amp.with_Body resp b)
              \/ (exists d len,
                    (ModifyResponse_of l resp).1
                    = Response.mk (Response.StatusCode resp)
                        (decompressed_headers (Response.Header resp) len) d len)
              \/ (exists d len,
                    (ModifyResponse_of l resp).1
                    = Response.mk (Response.StatusCode resp)
                        (http.Del (Response.Header resp) "Content-Encoding") d len)))
    as [Herr Hcases].
  { destruct l; cbn [ModifyResponse_of];
      [unfold amp.proxy_ModifyResponse | unfold amp_tee.proxy_ModifyResponse];
      repeat case_match; cbn [fst snd]; (split; [reflexivity|]); eauto 8. }
  split; [exact Herr|]. apply Hshape. exact Hcases.
Qed.

Lemma reader_with_EOF (r : io.Reader) :
  io.finish r = io.EOF -> r = io.NewReader (io.pending r).
Proof. destruct r as [p f]. simpl. intros ->. reflexivity. Qed.

(** X3.  On a body that reads to its end without error, the [peek]
    listing does one of two things: it returns the response as it was,
    or the response had a status in [200, 300), no content encoding, no
    streaming classification and a body the gzip reader decodes in full,
    and it returns that decoding with the headers adjusted to it. *)
Theorem peek_identity_or_decompression `{G : gzip.Lib} (resp : Response.t) :
  io.finish (Response.Body resp) = io.EOF ->
  amp.proxy_ModifyResponse resp = (resp, None)
  \/ exists decompressed,
       success resp
       /\ http.Get (Response.Header resp) "Content-Encoding" = ""
       /\ amp.isStreamingResponse resp = false
       /\ gzip_magic (io.pending (Response.Body resp)) = true
       /\ gzip.NewReader (io.pending (Response.Body resp)) ≫= gzip.ReadAll
          = Some decompressed
       /\ amp.proxy_ModifyResponse resp
          = (Response.mk (Response.StatusCode resp)
               (decompressed_headers (Response.Header resp)
                  (Z.of_nat (length decompressed)))
               (io.NewReader decompressed) (Z.of_nat (length decompressed)), None).
Proof.
  intros Heof.
  destruct (Z_le_dec 200 (Response.StatusCode resp)) as [Hlo|Hlo];
    [|left; apply (labelled_or_failed_untouched peek); left; unfold success; lia].
  destruct (Z_lt_dec (Response.StatusCode resp) 300) as [Hhi|Hhi];
    [|left; apply (labelled_or_failed_untouched peek); left; unfold success; lia].
  assert (success resp) as Hst by (unfold success; lia).
  destruct (String.eqb_spec (http.Get (Response.Header resp) "Content-Encoding") "")
    as [Hce|Hce];
    [|left; apply (labelled_or_failed_untouched peek); right; exact Hce].
  destruct (amp.isStreamingResponse resp) eqn:Hs;
    [left; apply (streaming_untouched peek); exact Hs|].
  destruct (gzip_magic (io.pending (Response.Body resp))) eqn:Hm;
    [|left; apply peek_non_gzip_restored; assumption].
  pose proof (peek_gzip_branch resp _ Hst Hce (reader_with_EOF _ Heof) Hm Hs) as Hb.
  destruct (gzip.NewReader (io.pending (Response.Body resp)) ≫= gzip.ReadAll)
    as [d|] eqn:Hd; [right | left; exact Hb].
  exists d. exact (conj Hst (conj Hce (conj eq_refl (conj eq_refl (conj eq_refl Hb))))).
Qed.

Lemma peek_identity_or_decompression_witness :
  io.finish (Response.Body (mkResp 200 ∅ good)) = io.EOF
  /\ (amp.proxy_ModifyResponse (G := gzip_ref.gzip_ref) (mkResp 200 ∅ good)
      = (mkResp 200 ∅ good, None)
      \/ exists decompressed,
           success (mkResp 200 ∅ good)
           /\ http.Get (Response.Header (mkResp 200 ∅ good)) "Content-Encoding" = ""
           /\ amp.isStreamingResponse (mkResp 200 ∅ good) = false
           /\ gzip_magic (io.pending (Response.Body (mkResp 200 ∅ good))) = true
           /\ gzip.NewReader (Lib := gzip_ref.gzip_ref)
                (io.pending (Response.Body (mkResp 200 ∅ good))) ≫= gzip.ReadAll
              = Some decompressed
           /\ amp.proxy_ModifyResponse (G := gzip_ref.gzip_ref) (mkResp 200 ∅ good)
              = (Response.mk (Response.StatusCode (mkResp 200 ∅ good))
                   (decompressed_headers (Response.Header (mkResp 200 ∅ good))
                      (Z.of_nat (length decompressed)))
                   (io.NewReader decompressed) (Z.of_nat (length decompressed)), None)).
Proof.
  split; [reflexivity|].
  exact (peek_identity_or_decompression (G := gzip_ref.gzip_ref)
           (mkResp 200 ∅ good) eq_refl).
Defined.

(** X4.  The gzip round trip in the [peek] listing.  For a response with
    a status in [200, 300), no Content-Encoding header and no streaming
    classification, whose body the gzip reader decodes to [P]: the body
    becomes [P], the length field the length of [P], the Content-Length
    header its decimal form as the only value, and there is no
    Content-Encoding header. *)
Theorem peek_round_trip `{G : gzip.Lib} (resp : Response.t)
    (body P : list byte) (r : gzip.Reader) :
  gzip.checks_magic G ->
  success resp ->
  Response.Header resp !! "Content-Encoding" = None ->
  amp.isStreamingResponse resp = false ->
  Response.Body resp = io.NewReader body ->
  gzip.NewReader body = Some r ->
  gzip.ReadAll r = Some P ->
  exists h : http.Header,
    amp.proxy_ModifyResponse resp
    = (Response.mk (Response.StatusCode resp) h (io.NewReader P)
                   (Z.of_nat (length P)), None)
    /\ h !! "Content-Encoding" = None
    /\ h !! "Content-Length" = Some [strconv.FormatInt (Z.of_nat (length P))].
Proof. apply peek_gzip_round_trip. Qed.

Lemma peek_round_trip_witness :
  gzip.checks_magic gzip_ref.gzip_ref
  /\ success (mkResp 200 ∅ good)
  /\ Response.Header (mkResp 200 ∅ good) !! "Content-Encoding" = None
  /\ amp.isStreamingResponse (mkResp 200 ∅ good) = false
  /\ Response.Body (mkResp 200 ∅ good) = io.NewReader good
  /\ gzip.NewReader (Lib := gzip_ref.gzip_ref) good = Some (drop 10 good)
  /\ gzip.ReadAll (Lib := gzip_ref.gzip_ref) (drop 10 good) = Some goodJSON
  /\ exists h : http.Header,
       amp.proxy_ModifyResponse (G := gzip_ref.gzip_ref) (mkResp 200 ∅ good)
       = (Response.mk 200 h (io.NewReader goodJSON) 11, None)
       /\ h !! "Content-Encoding" = None
       /\ h !! "Content-Length" = Some ["11"].
Proof.
  assert (success (mkResp 200 ∅ good)) as H1 by (unfold success; simpl; lia).
  assert (Response.Header (mkResp 200 ∅ good) !! "Content-Encoding" = None)
    as H2 by reflexivity.
  assert (amp.isStreamingResponse (mkResp 200 ∅ good) = false)
    as H3 by (vm_compute; reflexivity).
  assert (gzip.NewReader (Lib := gzip_ref.gzip_ref) good = Some (drop 10 good))
    as H5 by (vm_compute; reflexivity).
  assert (gzip.ReadAll (Lib := gzip_ref.gzip_ref) (drop 10 good) = Some goodJSON)
    as H6 by (vm_compute; reflexivity).
  refine (conj gzip_ref_checks_magic (conj H1 (conj H2 (conj H3 (conj eq_refl
           (conj H5 (conj H6 _))))))).
  exact (peek_round_trip (G := gzip_ref.gzip_ref) (mkResp 200 ∅ good) good goodJSON
           (drop 10 good) gzip_ref_checks_magic H1 H2 H3 eq_refl H5 H6).
Defined.

(** X5.  Failed decompression in the [peek] listing.  For a response
    with a status in [200, 300), no content encoding and no streaming
    classification, whose body starts with 1F 8B and is rejected by the
    gzip reader, at the header or later: the response comes back as it
    was, body bytes and headers, with a nil error. *)
Theorem peek_failed_decompression_restores `{G : gzip.Lib} (resp : Response.t)
    (body : list byte) :
  success resp ->
  http.Get (Response.Header resp) "Content-Encoding" = "" ->
  amp.isStreamingResponse resp = false ->
  Response.Body resp = io.NewReader body ->
  gzip_magic body = true ->
  gzip.NewReader body ≫= gzip.ReadAll = None ->
  amp.proxy_ModifyResponse resp = (resp, None).
Proof. apply peek_decompress_failure_restores. Qed.

Lemma peek_failed_decompression_restores_witness :
  success (mkResp 200 ∅ truncated)
  /\ http.Get (Response.Header (mkResp 200 ∅ truncated)) "Content-Encoding" = ""
  /\ amp.isStreamingResponse (mkResp 200 ∅ truncated) = false
  /\ Response.Body (mkResp 200 ∅ truncated) = io.NewReader truncated
  /\ gzip_magic truncated = true
  /\ gzip.NewReader (Lib := gzip_ref.gzip_ref) truncated ≫= gzip.ReadAll = None
  /\ amp.proxy_ModifyResponse (G := gzip_ref.gzip_ref) (mkResp 200 ∅ truncated)
     = (mkResp 200 ∅ truncated, None).
Proof.
  assert (success (mkResp 200 ∅ truncated)) as H1 by (unfold success; simpl; lia).
  assert (http.Get (Response.Header (mkResp 200 ∅ truncated)) "Content-Encoding" = "")
    as H2 by reflexivity.
  assert (amp.isStreamingResponse (mkResp 200 ∅ truncated) = false)
    as H3 by (vm_compute; reflexivity).
  assert (gzip_magic truncated = true) as H5 by reflexivity.
  assert (gzip.NewReader (Lib := gzip_ref.gzip_ref) truncated ≫= gzip.ReadAll = None)
    as H6 by (vm_compute; reflexivity).
  refine (conj H1 (conj H2 (conj H3 (conj eq_refl (conj H5 (conj H6 _)))))).
  exact (peek_failed_decompression_restores (G := gzip_ref.gzip_ref)
           (mkResp 200 ∅ truncated) truncated H1 H2 H3 eq_refl H5 H6).
Defined.

(** A gzip stream whose delivery breaks off with a read error after the
    last byte: what the two listings make of it. *)
Lemma broken_body_hypotheses (l : listing) :
  let resp := Response.mk 200 ∅ (io.mkReader good (io.ErrOther "reset")) 31 in
  success resp
  /\ http.Get (Response.Header resp) "Content-Encoding" = ""
  /\ isStreamingResponse_of l resp = false
  /\ gzip_magic (io.pending (Response.Body resp)) = true
  /\ io.finish (Response.Body resp) <> io.EOF.
Proof.
  cbn zeta. split; [unfold success; simpl; lia|].
  split; [reflexivity|]. split; [destruct l; vm_compute; reflexivity|].
  split; [reflexivity | discriminate].
Qed.

(** X6.  A read error in the [tee] listing.  When the body starts with
    1F 8B and reading the rest of it ends in an error, the response comes
    back with every byte that was read put back in front of the reader:
    it is the response that went in. *)
Theorem tee_read_error_restores `{G : gzip.Lib} (resp : Response.t) :
  success resp ->
  http.Get (Response.Header resp) "Content-Encoding" = "" ->
  amp_tee.isStreamingResponse resp = false ->
  gzip_magic (io.pending (Response.Body resp)) = true ->
  io.finish (Response.Body resp) <> io.EOF ->
  amp_tee.proxy_ModifyResponse resp = (resp, None).
Proof.
  intros Hst Hce Hs Hm Hf. apply gzip_magic_true in Hm as [t Ht].
  unfold amp_tee.proxy_ModifyResponse.
  rewrite (success_guard _ Hst), (no_encoding_guard _ Hce), Hs.
  destruct resp as [st h [p f] cl]. cbn [Response.Body io.pending io.finish] in *.
  subst p.
  unfold io.Tee_ReadFull, io.Tee_ReadAll, io.TeeReader, io.ReadFull, io.ReadAll,
    io.MultiReader, amp.with_Body.
  cbn [io.pending io.finish io.src io.sink].
  destruct (decide (2 ≤ length (x1f :: x8b :: t))%nat) as [_|Hn];
    [| simpl in Hn; lia].
  cbn -[gzip.NewReader gzip.ReadAll http.Del].
  rewrite !take_0, !drop_0. cbn [app].
  destruct f; [contradiction | |]; cbn [io.pending io.finish app];
    rewrite app_nil_r; reflexivity.
Qed.

Lemma tee_read_error_restores_witness :
  success (Response.mk 200 ∅ (io.mkReader good (io.ErrOther "reset")) 31)
  /\ http.Get (Response.Header
                (Response.mk 200 ∅ (io.mkReader good (io.ErrOther "reset")) 31))
              "Content-Encoding" = ""
  /\ amp_tee.isStreamingResponse
       (Response.mk 200 ∅ (io.mkReader good (io.ErrOther "reset")) 31) = false
  /\ gzip_magic (io.pending (Response.Body
       (Response.mk 200 ∅ (io.mkReader good (io.ErrOther "reset")) 31))) = true
  /\ io.finish (Response.Body
       (Response.mk 200 ∅ (io.mkReader good (io.ErrOther "reset")) 31)) <> io.EOF
  /\ amp_tee.proxy_ModifyResponse (G := gzip_ref.gzip_ref)
       (Response.mk 200 ∅ (io.mkReader good (io.ErrOther "reset")) 31)
     = (Response.mk 200 ∅ (io.mkReader good (io.ErrOther "reset")) 31, None).
Proof.
  destruct (broken_body_hypotheses tee) as (H1 & H2 & H3 & H4 & H5).
  refine (conj H1 (conj H2 (conj H3 (conj H4 (conj H5 _))))).
  exact (tee_read_error_restores (G := gzip_ref.gzip_ref) _ H1 H2 H3 H4 H5).
Defined.

(** X7.  A read error in the [peek] listing.  When the body starts with
    1F 8B and reading the rest of it ends in an error, only the two
    peeked bytes are put back in front of the reader: the new body
    delivers those two bytes and then the error, and the bytes read after
    them are not in it.  Status, headers and length are as they were,
    and the error returned is nil. *)
Theorem peek_read_error_keeps_two_bytes `{G : gzip.Lib} (resp : Response.t) :
  success resp ->
  http.Get (Response.Header resp) "Content-Encoding" = "" ->
  amp.isStreamingResponse resp = false ->
  gzip_magic (io.pending (Response.Body resp)) = true ->
  io.finish (Response.Body resp) <> io.EOF ->
  amp.proxy_ModifyResponse resp
  = (amp.with_Body resp
       (io.mkReader [x1f; x8b] (io.finish (Response.Body resp))), None).
Proof.
  intros Hst Hce Hs Hm Hf. apply gzip_magic_true in Hm as [t Ht].
  unfold amp.proxy_ModifyResponse.
  rewrite (success_guard _ Hst), (no_encoding_guard _ Hce), Hs.
  destruct resp as [st h [p f] cl]. cbn [Response.Body io.pending io.finish] in *.
  subst p.
  unfold io.ReadFull, io.ReadAll, io.MultiReader, amp.with_Body.
  cbn [io.pending io.finish].
  destruct (decide (2 ≤ length (x1f :: x8b :: t))%nat) as [_|Hn];
    [| simpl in Hn; lia].
  cbn -[gzip.NewReader gzip.ReadAll http.Del http.Set_ strconv.FormatInt].
  rewrite !take_0, !drop_0.
  destruct f; [contradiction | |]; reflexivity.
Qed.

Lemma peek_read_error_keeps_two_bytes_witness :
  success (Response.mk 200 ∅ (io.mkReader good (io.ErrOther "reset")) 31)
  /\ http.Get (Response.Header
                (Response.mk 200 ∅ (io.mkReader good (io.ErrOther "reset")) 31))
              "Content-Encoding" = ""
  /\ amp.isStreamingResponse
       (Response.mk 200 ∅ (io.mkReader good (io.ErrOther "reset")) 31) = false
  /\ gzip_magic (io.pending (Response.Body
       (Response.mk 200 ∅ (io.mkReader good (io.ErrOther "reset")) 31))) = true
  /\ io.finish (Response.Body
       (Response.mk 200 ∅ (io.mkReader good (io.ErrOther "reset")) 31)) <> io.EOF
  /\ amp.proxy_ModifyResponse (G := gzip_ref.gzip_ref)
       (Response.mk 200 ∅ (io.mkReader good (io.ErrOther "reset")) 31)
     = (Response.mk 200 ∅ (io.mkReader [x1f; x8b] (io.ErrOther "reset")) 31, None).
Proof.
  destruct (broken_body_hypotheses peek) as (H1 & H2 & H3 & H4 & H5).
  refine (conj H1 (conj H2 (conj H3 (conj H4 (conj H5 _))))).
  exact (peek_read_error_keeps_two_bytes (G := gzip_ref.gzip_ref) _ H1 H2 H3 H4 H5).
Defined.

(** X8.  The [tee] listing on a body of [n] bytes that starts with 1F 8B
    and reads to its end: the gzip reader is given the body followed by
    the body without its first two bytes, and when it rejects that, this
    is the body that goes out, [2n - 2] bytes long: unless [n = 2], the
    response that comes back is not the one that went in. *)
Theorem tee_failed_decompression_doubles `{G : gzip.Lib} (resp : Response.t)
    (body : list byte) :
  success resp ->
  http.Get (Response.Header resp) "Content-Encoding" = "" ->
  amp_tee.isStreamingResponse resp = false ->
  Response.Body resp = io.NewReader body ->
  gzip_magic body = true ->
  gzip.NewReader (body ++ drop 2 body) ≫= gzip.ReadAll = None ->
  amp_tee.proxy_ModifyResponse resp
  = (amp.with_Body resp (io.NewReader (body ++ drop 2 body)), None)
  /\ length (body ++ drop 2 body) = (2 * length body - 2)%nat
  /\ (length body <> 2%nat -> (amp_tee.proxy_ModifyResponse resp).1 <> resp).
Proof.
  intros Hst Hce Hs Hb Hm Hfail.
  pose proof (tee_gzip_branch resp body Hst Hce Hb Hm Hs) as Hbr.
  cbn zeta in Hbr. rewrite Hfail in Hbr.
  apply gzip_magic_true in Hm as [t Ht].
  assert (length (body ++ drop 2 body) = (2 * length body - 2)%nat) as Hlen.
  { rewrite length_app, length_drop. subst body. simpl. lia. }
  split; [exact Hbr|]. split; [exact Hlen|].
  intros Hn Heq. rewrite Hbr in Heq. cbn [fst] in Heq.
  apply (f_equal (fun r => length (io.pending (Response.Body r)))) in Heq.
  rewrite Hb in Heq. cbn [amp.with_Body Response.Body io.NewReader io.pending] in Heq.
  rewrite Hlen in Heq. subst body. simpl in *. lia.
Qed.

Lemma tee_failed_decompression_doubles_witness :
  success (mkResp 200 ∅ corrupted)
  /\ http.Get (Response.Header (mkResp 200 ∅ corrupted)) "Content-Encoding" = ""
  /\ amp_tee.isStreamingResponse (mkResp 200 ∅ corrupted) = false
  /\ Response.Body (mkResp 200 ∅ corrupted) = io.NewReader corrupted
  /\ gzip_magic corrupted = true
  /\ gzip.NewReader (Lib := gzip_ref.gzip_ref) (corrupted ++ drop 2 corrupted)
       ≫= gzip.ReadAll = None
  /\ length (corrupted ++ drop 2 corrupted) = (2 * length corrupted - 2)%nat.
Proof.
  assert (success (mkResp 200 ∅ corrupted)) as H1 by (unfold success; simpl; lia).
  assert (http.Get (Response.Header (mkResp 200 ∅ corrupted)) "Content-Encoding" = "")
    as H2 by reflexivity.
  assert (amp_tee.isStreamingResponse (mkResp 200 ∅ corrupted) = false)
    as H3 by (vm_compute; reflexivity).
  assert (gzip_magic corrupted = true) as H5 by reflexivity.
  assert (gzip.NewReader (Lib := gzip_ref.gzip_ref) (corrupted ++ drop 2 corrupted)
            ≫= gzip.ReadAll = None) as H6 by (vm_compute; reflexivity).
  refine (conj H1 (conj H2 (conj H3 (conj eq_refl (conj H5 (conj H6 _)))))).
  exact (proj1 (proj2 (tee_failed_decompression_doubles (G := gzip_ref.gzip_ref)
                         (mkResp 200 ∅ corrupted) corrupted H1 H2 H3 eq_refl H5 H6))).
Defined.

(** X9.  The two rules for streaming side by side.  What the [peek]
    listing classifies as streaming, the [tee] listing does too; where
    they differ, the Transfer-Encoding contains "chunked" in some case.
    In both, the classification is read off the headers alone: two
    responses with the same headers are classified alike, whatever their
    status and body. *)
Theorem streaming_rules_compared (resp : Response.t) :
  (amp.isStreamingResponse resp = true -> amp_tee.isStreamingResponse resp = true)
  /\ (amp_tee.isStreamingResponse resp = true ->
      amp.isStreamingResponse resp = false ->
      strings.Contains
        (strings.ToLower (http.Get (Response.Header resp) "Transfer-Encoding"))
        "chunked" = true)
  /\ (forall (l : listing) (resp' : Response.t),
        Response.Header resp' = Response.Header resp ->
        isStreamingResponse_of l resp' = isStreamingResponse_of l resp).
Proof.
  unfold amp.isStreamingResponse, amp_tee.isStreamingResponse.
  repeat split.
  - destruct (strings.Contains _ "text/event-stream"); [reflexivity | discriminate].
  - destruct (strings.Contains _ "text/event-stream"); [discriminate|].
    destruct (strings.Contains _ "chunked"); [reflexivity | discriminate].
  - intros l resp' Hh. destruct l; simpl;
      unfold amp.isStreamingResponse, amp_tee.isStreamingResponse;
      rewrite Hh; reflexivity.
Qed.

(** X10.  A body that does not start with 1F 8B is never altered.
    Whatever the status, the headers and the way the body ends, either
    listing returns the response it was given when the first two bytes
    to be read are not the gzip magic bytes, or there are fewer than
    two. *)
Theorem non_gzip_response_untouched `{G : gzip.Lib} (l : listing) (resp : Response.t) :
  gzip_magic (io.pending (Response.Body resp)) = false ->
  ModifyResponse_of l resp = (resp, None).
Proof.
  intros Hm.
  destruct (Z_le_dec 200 (Response.StatusCode resp)) as [Hlo|Hlo];
    [|apply labelled_or_failed_untouched; left; unfold success; lia].
  destruct (Z_lt_dec (Response.StatusCode resp) 300) as [Hhi|Hhi];
    [|apply labelled_or_failed_untouched; left; unfold success; lia].
  assert (success resp) as Hst by (unfold success; lia).
  destruct (String.eqb_spec (http.Get (Response.Header resp) "Content-Encoding") "")
    as [Hce|Hce];
    [|apply labelled_or_failed_untouched; right; exact Hce].
  destruct (isStreamingResponse_of l resp) eqn:Hs;
    [apply streaming_untouched; exact Hs|].
  destruct l; simpl in *.
  - apply peek_non_gzip_restored; assumption.
  - apply tee_non_gzip_restored; assumption.
Qed.

Lemma non_gzip_response_untouched_witness :
  gzip_magic (io.pending (Response.Body
    (Response.mk 200 ∅ (io.mkReader [x1f; x00; x8b] (io.ErrOther "reset")) 3))) = false
  /\ ModifyResponse_of (G := gzip_ref.gzip_ref) peek
       (Response.mk 200 ∅ (io.mkReader [x1f; x00; x8b] (io.ErrOther "reset")) 3)
     = (Response.mk 200 ∅ (io.mkReader [x1f; x00; x8b] (io.ErrOther "reset")) 3, None).
Proof.
  split; [reflexivity|].
  exact (non_gzip_response_untouched (G := gzip_ref.gzip_ref) peek
           (Response.mk 200 ∅ (io.mkReader [x1f; x00; x8b] (io.ErrOther "reset")) 3)
           eq_refl).
Defined.

(** ** The director and the error handler *)

(** X11.  What the director leaves alone.  Whatever the secret source
    answers, the request that goes on has the upstream's host as its
    Host; its method, URL and context are those the library's director
    left; every header other than X-Api-Key and Authorization has the
    values the library's director left; and the secret source is the one
    its single [Get] returned. *)
Theorem Director_touches_only_credentials {S : Type} `{SS : amp.SecretSource S}
    (originalDirector : Request.t -> Request.t) (parsed : url.URL)
    (req : Request.t) (secretSource : S) :
  let out := amp.proxy_Director originalDirector parsed req secretSource in
  let r := originalDirector req in
  Request.Host out.1 = url.Host parsed
  /\ Request.Method out.1 = Request.Method r
  /\ Request.URL out.1 = Request.URL r
  /\ Request.Context out.1 = Request.Context r
  /\ (forall k, k <> "X-Api-Key" -> k <> "Authorization" ->
        Request.Header out.1 !! k = Request.Header r !! k)
  /\ out.2 = (amp.Get secretSource (Request.Context r)).2.
Proof.
  cbn zeta. unfold amp.proxy_Director.
  cbn [Request.Context Request.Header Request.Method Request.URL Request.Host].
  destruct (amp.Get secretSource (Request.Context (originalDirector req)))
    as [[key err] ss'].
  destruct err as [e|]; [repeat split|].
  destruct (negb (String.eqb key "")); [|repeat split].
  cbn [fst snd Request.Host Request.Method Request.URL Request.Context Request.Header].
  repeat split. intros k H1 H2. unfold http.Set_.
  destruct canonical_keys as (_ & _ & _ & _ & -> & ->).
  rewrite !lookup_insert_ne by congruence. reflexivity.
Qed.

Lemma Contains_after (pre x s : string) :
  strings.Contains x s = true -> strings.Contains (pre ++ x) s = true.
Proof.
  intros Hx. induction pre as [|c pre IH]; [exact Hx|].
  change (strings.Contains (String c (pre ++ x)) s = true).
  cbn [strings.Contains]. rewrite IH. apply orb_true_r.
Qed.

(** X12.  The error handler answers every failure alike.  Whatever the
    request and the error, the status is 502, Content-Type has the single
    value "application/json" and every other header is as it was, and
    what is written is the fixed JSON text, which names the error code
    "amp_upstream_proxy_error": nothing of the error reaches the client. *)
Theorem ErrorHandler_fixed_answer (rw : ResponseWriter.t) (req : Request.t)
    (err : errors.error) :
  let out := amp.proxy_ErrorHandler rw req err in
  ResponseWriter.Status out = 502
  /\ ResponseWriter.Header out !! "Content-Type" = Some ["application/json"]
  /\ (forall k, k <> "Content-Type" ->
        ResponseWriter.Header out !! k = ResponseWriter.Header rw !! k)
  /\ ResponseWriter.Written out
     = (ResponseWriter.Written rw ++ amp.upstream_error_body)%string
  /\ strings.Contains (ResponseWriter.Written out) "amp_upstream_proxy_error" = true
  /\ forall req' err', amp.proxy_ErrorHandler rw req' err' = out.
Proof.
  cbn zeta. unfold amp.proxy_ErrorHandler.
  cbn [ResponseWriter.Status ResponseWriter.Header ResponseWriter.Written].
  unfold http.Set_. destruct canonical_keys as (_ & _ & -> & _).
  repeat split.
  - apply lookup_insert_eq.
  - intros k Hk. rewrite lookup_insert_ne by congruence. reflexivity.
  - apply Contains_after. vm_compute. reflexivity.
Qed.

(** ** The module after registration *)

(** X13.  A configuration update never fails and never changes whether
    the module is enabled, its proxy or its middleware.  On a disabled
    module, or with an address that is empty or white space only, it
    changes nothing at all; otherwise the cache of the multi-source
    secret that [Register] installed is invalidated, and that is the only
    change. *)
Theorem OnConfigUpdated_keeps_module {S : Type} `{MS : ampmodule.MultiSource S}
    (m : ampmodule.AmpModule S) (cfg : config.Config) :
  let r := ampmodule.OnConfigUpdated m cfg in
  r.2 = None
  /\ ampmodule.enabled r.1 = ampmodule.enabled m
  /\ ampmodule.proxy r.1 = ampmodule.proxy m
  /\ ampmodule.authMiddleware_ r.1 = ampmodule.authMiddleware_ m
  /\ (ampmodule.enabled m = false \/ whitespace_only (config.AmpUpstreamURL cfg) ->
      r.1 = m)
  /\ (ampmodule.enabled m = true -> ~ whitespace_only (config.AmpUpstreamURL cfg) ->
      ampmodule.secretSource r.1
      = ampmodule.InvalidateCache <$> ampmodule.secretSource m).
Proof.
  cbn zeta. unfold ampmodule.OnConfigUpdated.
  destruct (ampmodule.enabled m) eqn:He; cbn [negb].
  2:{ repeat split; try assumption; try discriminate. }
  destruct (String.eqb_spec (strings.TrimSpace (config.AmpUpstreamURL cfg)) "")
    as [Ht|Ht]; cbn [fst snd ampmodule.enabled ampmodule.proxy
                     ampmodule.authMiddleware_ ampmodule.secretSource].
  - repeat split; try assumption.
    intros _ Hnw. exfalso. apply Hnw. apply TrimSpace_empty_iff. exact Ht.
  - repeat split; try (symmetry; assumption).
    intros [Hd | Hw]; [discriminate|].
    exfalso. apply Ht. apply TrimSpace_empty_iff. exact Hw.
Qed.

Section after_registration.
Context `{G : gzip.Lib} `{U : url.Lib} `{H : httputil.Lib}.
Context {S : Type} `{MS : ampmodule.MultiSource S}.

(** X14.  What holds after [Register], whatever the configuration.  The
    middleware given to [New] is kept.  The engine keeps the routes it
    had, in their order, followed by none or by all the routes of the
    module.  When no error is returned, the module is disabled exactly
    when the address is empty or white space only; and an enabled module
    holds a proxy and a secret source and has all its routes in the
    engine.  When an error is returned, no route has been added and
    [enabled] is what it was. *)
Theorem Register_invariants (m : ampmodule.AmpModule S) (engine : gin.Engine)
    (cfg : config.Config) :
  let r := ampmodule.Register m engine cfg in
  let routes := ampmodule.managementRoutes
                  ++ ampmodule.providerAliases (ampmodule.authMiddleware m) in
  ampmodule.authMiddleware_ r.1.1 = ampmodule.authMiddleware_ m
  /\ (r.1.2 = engine \/ r.1.2 = engine ++ routes)
  /\ (r.2 = None ->
      (ampmodule.enabled r.1.1 = false
       <-> whitespace_only (config.AmpUpstreamURL cfg)))
  /\ (r.2 = None -> ampmodule.enabled r.1.1 = true ->
      is_Some (ampmodule.proxy r.1.1)
      /\ is_Some (ampmodule.secretSource r.1.1)
      /\ r.1.2 = engine ++ routes)
  /\ (r.2 <> None ->
      r.1.2 = engine /\ ampmodule.enabled r.1.1 = ampmodule.enabled m).
Proof.
  cbn zeta.
  destruct (String.eqb_spec (strings.TrimSpace (config.AmpUpstreamURL cfg)) "")
    as [Ht|Ht].
  - rewrite (Register_unconfigured m engine cfg Ht).
    cbn [fst snd ampmodule.enabled ampmodule.proxy ampmodule.authMiddleware_
         ampmodule.secretSource].
    repeat split; try discriminate; try congruence; auto.
    all: try (intros _; apply TrimSpace_empty_iff; exact Ht).
  - assert (~ whitespace_only (config.AmpUpstreamURL cfg)) as Hnw
      by (intros Hw; apply Ht; apply TrimSpace_empty_iff; exact Hw).
    destruct (url.Parse (strings.TrimSpace (config.AmpUpstreamURL cfg)))
      as [parsed|e] eqn:Hp.
    + rewrite (Register_built m engine cfg parsed Ht Hp).
      cbn [fst snd ampmodule.enabled ampmodule.proxy ampmodule.authMiddleware_
           ampmodule.secretSource].
      rewrite <- app_assoc.
      repeat split; try discriminate; try congruence; eauto.
      all: try (intros Hw; contradiction).
    + rewrite (Register_rejected m engine cfg e Ht Hp).
      cbn [fst snd ampmodule.enabled ampmodule.proxy ampmodule.authMiddleware_
           ampmodule.secretSource].
      repeat split; try discriminate; try congruence; auto.
Qed.

End after_registration.

(** X15.  The routes of the module.  Each management route answers every
    method with the proxy handler, lies under /api/ and has no
    middleware.  Each provider alias lies under /api/provider/:provider/,
    has the module's middleware as its only middleware, and is not
    served by the proxy handler.  That middleware is the one given to
    [New], or the one that lets every request through when none was
    given.  No path is registered twice among the management routes, no
    method and path twice among the aliases, and no alias has the path
    of a management route. *)
Theorem module_routes_guarded {S : Type} (m : ampmodule.AmpModule S) :
  Forall (fun r => gin.method r = gin.Any
                   /\ gin.handler r = gin.proxyHandler
                   /\ gin.middleware r = []
                   /\ strings.HasPrefix (gin.path r) "/api/" = true)
         ampmodule.managementRoutes
  /\ Forall (fun r => gin.middleware r = [ampmodule.authMiddleware m]
                      /\ strings.HasPrefix (gin.path r) "/api/provider/:provider/" = true
                      /\ gin.handler r <> gin.proxyHandler)
            (ampmodule.providerAliases (ampmodule.authMiddleware m))
  /\ ampmodule.authMiddleware m
     = match ampmodule.authMiddleware_ m with
       | Some mw => mw
       | None => gin.allowAll
       end
  /\ NoDup (map gin.path ampmodule.managementRoutes)
  /\ NoDup (map route_key (ampmodule.providerAliases (ampmodule.authMiddleware m)))
  /\ Forall (fun r => gin.path r
                      ∉ map gin.path
                          (ampmodule.providerAliases (ampmodule.authMiddleware m)))
            ampmodule.managementRoutes.
Proof.
  split; [|split; [|split; [|split; [|split]]]].
  - unfold ampmodule.managementRoutes. cbn [map].
    repeat constructor.
  - unfold ampmodule.providerAliases. cbn [map fst snd].
    repeat constructor; discriminate.
  - reflexivity.
  - apply (bool_decide_unpack _). vm_compute. exact I.
  - generalize (ampmodule.authMiddleware m). intros auth.
    apply (bool_decide_unpack _). vm_compute. exact I.
  - generalize (ampmodule.authMiddleware m). intros auth.
    apply (bool_decide_unpack _). vm_compute. exact I.
Qed.

Lemma ToLower_ascii (s : string) :
  ascii_only s -> strings.ToLower s = lower_bytes s.
Proof.
  induction s as [|c s IH]; [reflexivity|].
  intros Hs. unfold ascii_only in Hs. cbn [list_ascii_of_string] in Hs.
  apply Forall_cons in Hs as [Hc Hs].
  cbn [lower_bytes]. rewrite <- (IH Hs).
  destruct c as [b0 b1 b2 b3 b4 b5 b6 b7].
  destruct b7; [exfalso; revert Hc; destruct b0, b1, b2, b3, b4, b5, b6; vm_compute; lia|].
  destruct b0, b1, b2, b3, b4, b5, b6; reflexivity.
Qed.

(** X16.  The models handler chooses by the provider token without
    regard to ASCII case.  For a token of ASCII bytes: "anthropic" in any
    case goes to the Claude handler, "google" in any case to the Gemini
    handler, every other token to the OpenAI handler; so two tokens that
    differ in case only go to the same handler. *)
Theorem ampModelsHandler_ignores_case (provider : string) :
  ascii_only provider ->
  (lower_bytes provider = "anthropic" ->
     routes.ampModelsHandler provider = routes.ClaudeModels)
  /\ (lower_bytes provider = "google" ->
        routes.ampModelsHandler provider = routes.GeminiModels)
  /\ (lower_bytes provider <> "anthropic" -> lower_bytes provider <> "google" ->
        routes.ampModelsHandler provider = routes.OpenAIModels)
  /\ (forall other, ascii_only other -> lower_bytes other = lower_bytes provider ->
        routes.ampModelsHandler other = routes.ampModelsHandler provider).
Proof.
  intros Hp.
  assert (forall p, ascii_only p ->
            routes.ampModelsHandler p
            = if String.eqb (lower_bytes p) "anthropic" then routes.ClaudeModels
              else if String.eqb (lower_bytes p) "google" then routes.GeminiModels
              else routes.OpenAIModels) as Hd.
  { intros p Hascii. unfold routes.ampModelsHandler. cbn zeta.
    rewrite (ToLower_ascii p Hascii). reflexivity. }
  repeat split.
  - intros He. rewrite (Hd _ Hp), He. reflexivity.
  - intros He. rewrite (Hd _ Hp), He. reflexivity.
  - intros H1 H2. rewrite (Hd _ Hp).
    destruct (String.eqb_spec (lower_bytes provider) "anthropic"); [contradiction|].
    destruct (String.eqb_spec (lower_bytes provider) "google"); [contradiction|].
    reflexivity.
  - intros other Ho He. rewrite (Hd _ Hp), (Hd _ Ho), He. reflexivity.
Qed.

Lemma ampModelsHandler_ignores_case_witness :
  ascii_only "Anthropic"
  /\ lower_bytes "Anthropic" = "anthropic"
  /\ routes.ampModelsHandler "Anthropic" = routes.ClaudeModels.
Proof.
  assert (ascii_only "Anthropic") as H1
    by (unfold ascii_only; repeat constructor; simpl; lia).
  refine (conj H1 (conj eq_refl _)).
  exact (proj1 (ampModelsHandler_ignores_case "Anthropic" H1) eq_refl).
Defined.

(** ** Endpoint override: further properties *)

Section override_more.
Context `{R : registry.Registry} `{T : thinking.Lib}.

(** An override that is given names the other of the two endpoints, and
    the descriptor lists it and does not list the requested one. *)
Lemma override_sound (modelName requested e : string) :
  openai.resolveEndpointOverride modelName requested = (e, true) ->
  modelName <> ""
  /\ exists info, (openai.lookupInfo modelName).1 = Some info
       /\ registry.SupportedEndpoints info <> []
       /\ (requested ∉ registry.SupportedEndpoints info)
       /\ (e ∈ registry.SupportedEndpoints info)
       /\ ((requested = "/chat/completions" /\ e = "/responses")
           \/ (requested = "/responses" /\ e = "/chat/completions")).
Proof.
  intros Hr.
  destruct (String.eqb_spec modelName "") as [->|Hne]; [discriminate Hr|].
  split; [exact Hne|].
  destruct ((openai.lookupInfo modelName).1) as [info|] eqn:Hinfo.
  2:{ rewrite (resolveEndpointOverride_unresolved modelName requested
                 (or_intror Hinfo)) in Hr. discriminate Hr. }
  exists info. split; [reflexivity|].
  rewrite (resolveEndpointOverride_resolved _ _ _ Hne Hinfo) in Hr.
  cbn zeta in Hr.
  destruct (openai.endpointListContains _ requested) eqn:Ereq; [discriminate Hr|].
  apply endpointListContains_not_elem in Ereq.
  assert (registry.SupportedEndpoints info <> [] <->
          exists x, x ∈ registry.SupportedEndpoints info) as Hnonempty.
  { destruct (registry.SupportedEndpoints info) as [|x xs].
    - split; [congruence | intros [x Hx]; apply elem_of_nil in Hx; contradiction].
    - split; [intros _; exists x; left | discriminate]. }
  destruct (String.eqb_spec requested "/chat/completions") as [Hc|Hc];
    cbn [andb] in Hr.
  - destruct (openai.endpointListContains _ "/responses") eqn:Er.
    + apply endpointListContains_elem in Er.
      injection Hr as <-.
      refine (conj _ (conj Ereq (conj Er (or_introl (conj Hc eq_refl))))).
      apply Hnonempty. eexists. exact Er.
    + destruct (String.eqb_spec requested "/responses") as [Hr'|Hr'];
        cbn [andb] in Hr; [rewrite Hr' in Hc; discriminate Hc | discriminate Hr].
  - destruct (String.eqb_spec requested "/responses") as [Hr'|Hr'];
      cbn [andb] in Hr; [|discriminate Hr].
    destruct (openai.endpointListContains _ "/chat/completions") eqn:Ech;
      [|discriminate Hr].
    apply endpointListContains_elem in Ech.
    injection Hr as <-.
    refine (conj _ (conj Ereq (conj Ech (or_intror (conj Hr' eq_refl))))).
    apply Hnonempty. eexists. exact Ech.
Qed.

(** X17.  An override settles the request: when the resolver answers
    with an override for a model, asking it again for the same model
    with the endpoint it chose gives no further override. *)
Theorem override_is_stable (modelName requested e : string) :
  openai.resolveEndpointOverride modelName requested = (e, true) ->
  openai.resolveEndpointOverride modelName e = ("", false).
Proof.
  intros Hr.
  destruct (override_sound _ _ _ Hr) as (Hne & info & Hinfo & _ & _ & He & _).
  rewrite (resolveEndpointOverride_resolved _ _ _ Hne Hinfo). cbn zeta.
  apply endpointListContains_elem in He. rewrite He. reflexivity.
Qed.

(** X18.  When an override is given, exactly.  The resolver answers
    (e, true) if and only if the model name is not empty, the model
    resolves to a descriptor, the descriptor does not list the requested
    endpoint but lists e, and the request and e are "/chat/completions"
    and "/responses" in one order or the other.  So a request for any
    other endpoint, a model without a descriptor and a descriptor with
    an empty list never get an override. *)
Theorem override_exactly_when (modelName requested e : string) :
  openai.resolveEndpointOverride modelName requested = (e, true)
  <-> modelName <> ""
      /\ exists info, (openai.lookupInfo modelName).1 = Some info
           /\ (requested ∉ registry.SupportedEndpoints info)
           /\ (e ∈ registry.SupportedEndpoints info)
           /\ ((requested = "/chat/completions" /\ e = "/responses")
               \/ (requested = "/responses" /\ e = "/chat/completions")).
Proof.
  split.
  - intros Hr.
    destruct (override_sound _ _ _ Hr) as (Hne & info & Hinfo & _ & Hreq & He & Hsw).
    split; [exact Hne|]. exists info. auto.
  - intros (Hne & info & Hinfo & Hreq & He & Hsw).
    rewrite (resolveEndpointOverride_resolved _ _ _ Hne Hinfo). cbn zeta.
    apply endpointListContains_not_elem in Hreq. rewrite Hreq.
    apply endpointListContains_elem in He.
    destruct Hsw as [[-> ->] | [-> ->]].
    + rewrite He. reflexivity.
    + rewrite He. reflexivity.
Qed.


End override_more.

Lemma override_is_stable_witness :
  openai.resolveEndpointOverride (R := test_registry) (T := thinking.parens)
    "test-gemini-chat-only" "/responses" = ("/chat/completions", true)
  /\ openai.resolveEndpointOverride (R := test_registry) (T := thinking.parens)
       "test-gemini-chat-only" "/chat/completions" = ("", false).
Proof.
  assert (openai.resolveEndpointOverride (R := test_registry) (T := thinking.parens)
            "test-gemini-chat-only" "/responses" = ("/chat/completions", true))
    as H1 by (vm_compute; reflexivity).
  exact (conj H1 (override_is_stable (R := test_registry) (T := thinking.parens)
                    "test-gemini-chat-only" "/responses" "/chat/completions" H1)).
Defined.

(** X20.  An identifier the registry knows as it is written is never
    parsed for a suffix: the registry is asked once, and the answer of
    the resolver is the same whatever [ParseSuffix] would make of the
    identifier. *)
Theorem exact_registration_wins `{R : registry.Registry} (T1 T2 : thinking.Lib)
    (modelName requested : string) (info : registry.ModelInfo) :
  registry.GetModelInfo modelName "" = Some info ->
  openai.lookupInfo (T := T1) modelName = (Some info, [modelName])
  /\ openai.resolveEndpointOverride (T := T1) modelName requested
     = openai.resolveEndpointOverride (T := T2) modelName requested.
Proof.
  intros Hinfo.
  assert (forall T : thinking.Lib,
            openai.lookupInfo (T := T) modelName = (Some info, [modelName])) as Hl.
  { intros T. unfold openai.lookupInfo. rewrite Hinfo. reflexivity. }
  split; [apply Hl|].
  unfold openai.resolveEndpointOverride. rewrite !Hl. reflexivity.
Qed.

Lemma exact_registration_wins_witness :
  registry.GetModelInfo (Registry := test_registry) "test-gemini-chat-only" ""
  = Some (registry.mkModelInfo "test-gemini-chat-only" ["/chat/completions"])
  /\ openai.resolveEndpointOverride (R := test_registry) (T := thinking.parens)
       "test-gemini-chat-only" "/responses"
     = openai.resolveEndpointOverride (R := test_registry)
         (T := thinking.Build_Lib (fun _ => thinking.mkSuffixResult "other" true "high"))
         "test-gemini-chat-only" "/responses".
Proof.
  assert (registry.GetModelInfo (Registry := test_registry) "test-gemini-chat-only" ""
          = Some (registry.mkModelInfo "test-gemini-chat-only" ["/chat/completions"]))
    as H1 by (vm_compute; reflexivity).
  exact (conj H1 (proj2 (exact_registration_wins (R := test_registry) thinking.parens
                           (thinking.Build_Lib
                              (fun _ => thinking.mkSuffixResult "other" true "high"))
                           "test-gemini-chat-only" "/responses" _ H1))).
Defined.

(** ** The module and the configured address *)

Lemma TrimLeft_fixed (fuel : nat) (s : string) :
  strings.leading_space s = None -> strings.TrimLeft fuel s = s.
Proof.
  intros Hs. destruct fuel; [reflexivity|].
  cbn [strings.TrimLeft]. rewrite Hs. reflexivity.
Qed.

Lemma TrimRight_rev_fixed (fuel : nat) (r : string) :
  strings.trailing_space r = None -> strings.TrimRight_rev fuel r = r.
Proof.
  intros Hr. destruct fuel; [reflexivity|].
  cbn [strings.TrimRight_rev]. rewrite Hr. reflexivity.
Qed.

(** Trimming what is trimmed changes nothing. *)
Lemma TrimSpace_idempotent (s : string) :
  strings.TrimSpace (strings.TrimSpace s) = strings.TrimSpace s.
Proof.
  destruct (TrimSpace_trimmed s) as [Hl Hr].
  set (t := strings.TrimSpace s) in *.
  unfold strings.TrimSpace. cbv zeta.
  rewrite (TrimLeft_fixed _ t Hl).
  rewrite (TrimRight_rev_fixed _ _ Hr).
  apply rev_str_involutive.
Qed.

Section configured_address.
Context `{G : gzip.Lib} `{U : url.Lib} `{H : httputil.Lib}.
Context {S : Type} `{MS : ampmodule.MultiSource S}.

(** X21.  White space around the configured address is of no account:
    [Register] and [OnConfigUpdated] do with an address exactly what they
    do with the address trimmed, and so the same for two addresses that
    differ in surrounding white space only. *)
Theorem address_is_trimmed (m : ampmodule.AmpModule S) (engine : gin.Engine)
    (upstreamURL key : string) :
  ampmodule.Register m engine (config.mkConfig upstreamURL key)
  = ampmodule.Register m engine (config.mkConfig (strings.TrimSpace upstreamURL) key)
  /\ ampmodule.OnConfigUpdated m (config.mkConfig upstreamURL key)
     = ampmodule.OnConfigUpdated m
         (config.mkConfig (strings.TrimSpace upstreamURL) key)
  /\ (forall other, strings.TrimSpace other = strings.TrimSpace upstreamURL ->
        ampmodule.Register m engine (config.mkConfig other key)
        = ampmodule.Register m engine (config.mkConfig upstreamURL key)).
Proof.
  unfold ampmodule.Register, ampmodule.OnConfigUpdated.
  cbn [config.AmpUpstreamURL config.AmpUpstreamAPIKey].
  rewrite TrimSpace_idempotent.
  split; [reflexivity|]. split; [reflexivity|].
  intros other ->. reflexivity.
Qed.

(** X22.  From the configuration to the outgoing request.  When the
    address, trimmed, is not empty and parses, the module holds after
    [Register] a proxy and the secret source made from the configured
    key; the director of that proxy sends every request to the host of
    the parsed address; and when that source answers with the configured
    key, which is not empty, the request leaves with X-Api-Key set to the
    key and Authorization set to "Bearer " followed by the key. *)
Theorem registered_proxy_uses_configuration (m : ampmodule.AmpModule S)
    (engine : gin.Engine) (cfg : config.Config) (parsed : url.URL) :
  strings.TrimSpace (config.AmpUpstreamURL cfg) <> "" ->
  url.Parse (strings.TrimSpace (config.AmpUpstreamURL cfg)) = inl parsed ->
  let after := (ampmodule.Register m engine cfg).1.1 in
  let key := config.AmpUpstreamAPIKey cfg in
  exists p src,
    ampmodule.proxy after = Some p
    /\ ampmodule.secretSource after = Some src
    /\ src = ampmodule.NewMultiSourceSecret key 0
    /\ (forall req s, Request.Host (amp.Director p req s).1 = url.Host parsed)
    /\ (forall req src',
          key <> "" ->
          amp.Get src (Request.Context (httputil.singleHostDirector parsed req))
            = ((key, None), src') ->
          let out := (amp.Director p req src).1 in
          Request.Header out !! "X-Api-Key" = Some [key]
          /\ Request.Header out !! "Authorization" = Some [("Bearer " ++ key)%string]).
Proof.
  intros Hne Hp. cbn zeta.
  rewrite (Register_built m engine cfg parsed Hne Hp).
  cbn [fst snd ampmodule.proxy ampmodule.secretSource].
  eexists. eexists.
  split; [reflexivity|]. split; [reflexivity|]. split; [reflexivity|].
  cbn [amp.Director]. unfold amp.proxy_Director.
  cbn [Request.Context Request.Header Request.Method Request.URL Request.Host].
  split.
  - intros req s.
    destruct (amp.Get s (Request.Context (httputil.singleHostDirector parsed req)))
      as [[k err] s'].
    destruct err; [reflexivity|].
    destruct (negb (String.eqb k "")); reflexivity.
  - intros req src' Hkey Hget. rewrite Hget.
    destruct (String.eqb_spec (config.AmpUpstreamAPIKey cfg) ""); [contradiction|].
    cbn [negb fst Request.Header]. unfold http.Set_.
    destruct canonical_keys as (_ & _ & _ & _ & -> & ->).
    split.
    + rewrite lookup_insert_ne by discriminate. apply lookup_insert_eq.
    + apply lookup_insert_eq.
Qed.

End configured_address.

Lemma registered_proxy_uses_configuration_witness :
  strings.TrimSpace " http://example.com " <> ""
  /\ url.Parse (Lib := url_ref.url_ref) (strings.TrimSpace " http://example.com ")
     = inl (url.mkURL "http" "" None "example.com" "" "" "")
  /\ exists p src,
       ampmodule.proxy (Register_ref " http://example.com ").1.1 = Some p
       /\ ampmodule.secretSource (Register_ref " http://example.com ").1.1 = Some src
       /\ Request.Host (amp.Director p test_request src).1 = "example.com".
Proof.
  assert (strings.TrimSpace " http://example.com " <> "") as H1 by discriminate.
  assert (url.Parse (Lib := url_ref.url_ref) (strings.TrimSpace " http://example.com ")
          = inl (url.mkURL "http" "" None "example.com" "" "" "")) as H2
    by reflexivity.
  refine (conj H1 (conj H2 _)).
  destruct (registered_proxy_uses_configuration
              (G := gzip_ref.gzip_ref) (U := url_ref.url_ref)
              (H := httputil.httputil_ref) (MS := ampmodule.explicit_only)
              (ampmodule.New (Some gin.hostAuth)) []
              (config.mkConfig " http://example.com " "k") _ H1 H2)
    as (p & src & Hp & Hs & _ & Hhost & _).
  exists p, src.
  exact (conj Hp (conj Hs (Hhost test_request src))).
Defined.
